(** * obj2png: multi-view batch renderer

    A shallow embedding of [obj2png.py].  The script imports an OBJ mesh
    into Blender, normalises it (centre at the origin, largest extent 2),
    renders ten fixed views to PNG files and does so for every mesh found
    under an input directory, one job per mesh on a process pool.

    Numbers.  Python floats are read as exact numbers: coordinates, sizes
    and scales are rationals ([Q], compared with [==]); angles, which come
    out of [math.radians], are reals ([R]).  Rounding is not modelled.

    Blender.  The calls into [bpy] are modelled by what they do to the
    few pieces of engine state the script reads back: the mesh objects
    (vertices, location, rotation, scale, selection), the lights, the
    scene camera and the render settings.  Cycles sampling options, the
    world background, the material and the Freestyle line set are written
    by the script and never read by it; they are left out. *)

From Stdlib Require Import QArith Qminmax Qabs Reals Lra Lia Psatz ZArith.
From Stdlib Require Import String Ascii List Permutation.
From stdpp Require Import gmap strings list fin_maps pretty.

Open Scope string_scope.
Open Scope list_scope.

(** ** Vectors and matrices over the rationals *)

Module Vec.

Definition vec3 : Type := Q * Q * Q.
Definition mat3 : Type := vec3 * vec3 * vec3.

Definition veq (a b : vec3) : Prop :=
  let '(ax, ay, az) := a in
  let '(bx, by_, bz) := b in
  ax == bx /\ ay == by_ /\ az == bz.

Definition vzero : vec3 := (0, 0, 0)%Q.
Definition vone : vec3 := (1, 1, 1)%Q.

Definition vadd (a b : vec3) : vec3 :=
  let '(ax, ay, az) := a in
  let '(bx, by_, bz) := b in
  (ax + bx, ay + by_, az + bz)%Q.

Definition vsub (a b : vec3) : vec3 :=
  let '(ax, ay, az) := a in
  let '(bx, by_, bz) := b in
  (ax - bx, ay - by_, az - bz)%Q.

Definition vneg (a : vec3) : vec3 :=
  let '(ax, ay, az) := a in (- ax, - ay, - az)%Q.

(** Component-wise product, the action of a scale triple. *)
Definition vmul (a b : vec3) : vec3 :=
  let '(ax, ay, az) := a in
  let '(bx, by_, bz) := b in
  (ax * bx, ay * by_, az * bz)%Q.

Definition vdiv (a : vec3) (k : Q) : vec3 :=
  let '(ax, ay, az) := a in (ax / k, ay / k, az / k)%Q.

Definition vmin (a b : vec3) : vec3 :=
  let '(ax, ay, az) := a in
  let '(bx, by_, bz) := b in
  (Qmin ax bx, Qmin ay by_, Qmin az bz).

Definition vmax (a b : vec3) : vec3 :=
  let '(ax, ay, az) := a in
  let '(bx, by_, bz) := b in
  (Qmax ax bx, Qmax ay by_, Qmax az bz).

Definition dot (a b : vec3) : Q :=
  let '(ax, ay, az) := a in
  let '(bx, by_, bz) := b in
  (ax * bx + ay * by_ + az * bz)%Q.

Definition mat_id : mat3 := ((1, 0, 0), (0, 1, 0), (0, 0, 1))%Q.

Definition mat_vec (m : mat3) (v : vec3) : vec3 :=
  let '(r1, r2, r3) := m in (dot r1 v, dot r2 v, dot r3 v).

(** Python's [max(v)] over the three components of a vector. *)
Definition max3 (v : vec3) : Q :=
  let '(x, y, z) := v in Qmax (Qmax x y) z.

End Vec.
Export Vec.

(** ** The engine state *)

Module Bpy.

(** A mesh object.  [rotation] holds the rotation matrix of the object's
    [rotation_euler]; the triple [(0, 0, 0)] is the identity matrix. *)
Record Object : Type := mkObject {
  data : list vec3;
  location : vec3;
  rotation : mat3;
  scale : vec3;
  select : bool
}.

Definition euler : Type := (R * R * R)%type.

Record Light : Type := mkLight {
  light_rotation : euler;
  energy : Q;
  use_shadow : bool;
  shadow_soft_size : Q;
  light_select : bool
}.

Inductive camera_type : Type := PERSP | ORTHO.

Record Camera : Type := mkCamera {
  cam_type : camera_type;
  cam_location : vec3;
  cam_rotation : euler;
  ortho_scale : Q;
  cam_select : bool
}.

Record RenderSettings : Type := mkRender {
  resolution_x : Z;
  resolution_y : Z;
  resolution_percentage : Z;
  file_format : string;
  color_mode : string;
  filepath : string
}.

(** A reference to an object of the scene: a mesh object or a light by
    its position in the scene's list, or the camera. *)
Inductive ref : Type :=
  | MeshRef (i : nat)
  | LightRef (i : nat)
  | CameraRef.

(** [camera] is the scene camera; [self.camera] of the renderer is a
    reference to the same object, so both are this one field.  [active]
    is [bpy.context.active_object]. *)
Record Scene : Type := mkScene {
  objects : list Object;
  lights : list Light;
  camera : option Camera;
  active : option ref;
  render : RenderSettings
}.

(** [obj.matrix_world @ p]: scale, then rotate, then translate. *)
Definition matrix_world (o : Object) (p : vec3) : vec3 :=
  vadd (location o) (mat_vec (rotation o) (vmul (scale o) p)).

(** The linear part of [matrix_world]. *)
Definition matrix_linear (o : Object) (p : vec3) : vec3 :=
  mat_vec (rotation o) (vmul (scale o) p).

(** Minimum and maximum corner of a vertex list.  Blender gives a mesh
    without vertices the box from [(-1,-1,-1)] to [(1,1,1)]. *)
Definition minmax (vs : list vec3) : vec3 * vec3 :=
  match vs with
  | [] => ((-1, -1, -1), (1, 1, 1))%Q
  | v :: vs' => fold_left (fun b p => (vmin b.1 p, vmax b.2 p)) vs' (v, v)
  end.

(** [obj.bound_box]: the eight corners of the local bounding box. *)
Definition bound_box (o : Object) : list vec3 :=
  let '((x0, y0, z0), (x1, y1, z1)) := minmax (data o) in
  [ (x0, y0, z0); (x0, y0, z1); (x0, y1, z1); (x0, y1, z0);
    (x1, y0, z0); (x1, y0, z1); (x1, y1, z1); (x1, y1, z0) ].

(** [obj.dimensions]: the local box size times the absolute scale. *)
Definition dimensions (o : Object) : vec3 :=
  let (lo, hi) := minmax (data o) in
  let '(sx, sy, sz) := scale o in
  vmul (Qabs sx, Qabs sy, Qabs sz) (vsub hi lo).

(** [bpy.ops.object.transform_apply(location, rotation, scale)] on one
    object: the chosen parts of the transform are baked into the
    vertices and reset.  The script calls it with all three parts and
    with the scale alone. *)
Definition transform_apply_obj (loc rot scl : bool) (o : Object) : Object :=
  let r := if rot then rotation o else mat_id in
  let s := if scl then scale o else vone in
  let t := if loc then location o else vzero in
  {| data := map (fun p => vadd t (mat_vec r (vmul s p))) (data o);
     location := if loc then vzero else location o;
     rotation := if rot then mat_id else rotation o;
     scale := if scl then vone else scale o;
     select := select o |}.

(** [bpy.ops.object.origin_set(type='ORIGIN_GEOMETRY', center='BOUNDS')]
    on one object: the vertices are moved so that the centre of their
    box is the local origin, and the object is moved by the same offset
    seen through its rotation and scale, so the mesh stays in place. *)
Definition origin_set_obj (o : Object) : Object :=
  let (lo, hi) := minmax (data o) in
  let c := vdiv (vadd lo hi) 2 in
  {| data := map (fun p => vsub p c) (data o);
     location := vadd (location o) (matrix_linear o c);
     rotation := rotation o;
     scale := scale o;
     select := select o |}.

Definition on_selected (f : Object -> Object) (o : Object) : Object :=
  if select o then f o else o.

Definition set_select (b : bool) (o : Object) : Object :=
  {| data := data o; location := location o; rotation := rotation o;
     scale := scale o; select := b |}.

Definition set_location (l : vec3) (o : Object) : Object :=
  {| data := data o; location := l; rotation := rotation o;
     scale := scale o; select := select o |}.

Definition set_rotation (r : mat3) (o : Object) : Object :=
  {| data := data o; location := location o; rotation := r;
     scale := scale o; select := select o |}.

Definition set_scale (s : vec3) (o : Object) : Object :=
  {| data := data o; location := location o; rotation := rotation o;
     scale := s; select := select o |}.

(** The vertices of an object in world space, and their box. *)
Definition world_vertices (o : Object) : list vec3 :=
  map (matrix_world o) (data o).

Definition world_extent (o : Object) : Q :=
  let (lo, hi) := minmax (world_vertices o) in max3 (vsub hi lo).


End Bpy.
Export Bpy.

(** ** Python: exceptions, the file system, the console *)

Module Py.

(** The exceptions that can reach the script.  All but the last two are
    subclasses of [Exception]; [KeyboardInterrupt] and [SystemExit]
    derive from [BaseException] only. *)
Inductive exn : Type :=
  | OSError (msg : string)
  | RuntimeError (msg : string)
  | IndexError (msg : string)
  | ValueError (msg : string)
  | ZeroDivisionError (msg : string)
  | AttributeError (msg : string)
  | ReferenceError (msg : string)
  | KeyboardInterrupt
  | SystemExit.

Definition is_Exception (e : exn) : bool :=
  match e with
  | KeyboardInterrupt | SystemExit => false
  | _ => true
  end.

(** [str(e)] *)
Definition str (e : exn) : string :=
  match e with
  | OSError m | RuntimeError m | IndexError m | ValueError m
  | ZeroDivisionError m | AttributeError m | ReferenceError m => m
  | KeyboardInterrupt | SystemExit => ""
  end.

Inductive result (A : Type) : Type :=
  | Ok (a : A)
  | Raise (e : exn).
Arguments Ok {A} a.
Arguments Raise {A} e.

(** What a file holds: an OBJ file is read as the mesh objects the
    importer builds from it, a PNG written by the engine as the scene it
    was rendered from. *)
Inductive content : Type :=
  | ObjFile (objs : list Object)
  | Png (img : Scene)
  | Other.

Inductive node : Type :=
  | Dir
  | File (c : content).

(** The file system is a flat map from path strings to nodes; [cpus] is
    the number of processors of the machine. *)
Record World : Type := mkWorld {
  fs : gmap string node;
  stdout : list string;
  bpy : Scene;
  cpus : positive
}.

(** Computations that read and write the world and may raise.  The
    world after a raise keeps the effects made before it. *)
Definition M (A : Type) : Type := World -> result A * World.

Definition ret {A} (a : A) : M A := fun w => (Ok a, w).

Definition bind {A B} (m : M A) (k : A -> M B) : M B :=
  fun w => match m w with
           | (Ok a, w') => k a w'
           | (Raise e, w') => (Raise e, w')
           end.

Definition raise {A} (e : exn) : M A := fun w => (Raise e, w).

(** [try: body except Exception as e: handler(e)] *)
Definition try_except_Exception {A} (body : M A) (handler : exn -> M A) : M A :=
  fun w => match body w with
           | (Ok a, w') => (Ok a, w')
           | (Raise e, w') =>
               if is_Exception e then handler e w' else (Raise e, w')
           end.

(** [for x in l: body(x)] *)
Fixpoint for_each {A} (l : list A) (body : A -> M unit) : M unit :=
  match l with
  | [] => ret tt
  | x :: l' => bind (body x) (fun _ => for_each l' body)
  end.

Definition get_fs : M (gmap string node) := fun w => (Ok (fs w), w).

Definition put_fs (f : gmap string node) : M unit :=
  fun w => (Ok tt, {| fs := f; stdout := stdout w; bpy := bpy w; cpus := cpus w |}).

Definition get_bpy : M Scene := fun w => (Ok (bpy w), w).

Definition put_bpy (s : Scene) : M unit :=
  fun w => (Ok tt, {| fs := fs w; stdout := stdout w; bpy := s; cpus := cpus w |}).

Definition print (line : string) : M unit :=
  fun w => (Ok tt, {| fs := fs w; stdout := stdout w ++ [line]; bpy := bpy w;
                      cpus := cpus w |}).

(** Float division [a / b]. *)
Definition truediv (a b : Q) : M Q :=
  if Qeq_bool b 0 then raise (ZeroDivisionError "float division by zero")
  else ret (a / b)%Q.

End Py.
Export Py.

Declare Scope py_scope.
Delimit Scope py_scope with py.
Notation "x <- m ;; k" := (bind m (fun x => k))
  (at level 100, m at next level, right associativity) : py_scope.
Notation "m ;;; k" := (bind m (fun _ => k))
  (at level 100, right associativity) : py_scope.
Open Scope py_scope.

(** ** Strings and paths *)

Module Str.

(** [s.rfind(c)]: the index of the last [c] in [s], or -1. *)
Fixpoint rfind (c : ascii) (s : string) : Z :=
  match s with
  | EmptyString => (-1)%Z
  | String a s' =>
      let r := rfind c s' in
      if (0 <=? r)%Z then (r + 1)%Z
      else if Ascii.eqb a c then 0%Z else (-1)%Z
  end.

(** [s[i:]] *)
Fixpoint slice_from (i : nat) (s : string) : string :=
  match i, s with
  | O, _ => s
  | S i', String _ s' => slice_from i' s'
  | S _, EmptyString => EmptyString
  end.

(** [s[:i]] *)
Fixpoint slice_to (i : nat) (s : string) : string :=
  match i, s with
  | O, _ => EmptyString
  | S i', String a s' => String a (slice_to i' s')
  | S _, EmptyString => EmptyString
  end.

Definition startswith (pre s : string) : bool := String.prefix pre s.

Fixpoint endswith (suf s : string) : bool :=
  String.eqb s suf ||
  match s with
  | EmptyString => false
  | String _ s' => endswith suf s'
  end.

Definition strip_suffix (suf s : string) : option string :=
  if endswith suf s
  then Some (slice_to (String.length s - String.length suf) s)
  else None.

End Str.
Export Str.

(** [os.path] on a POSIX system. *)
Module posixpath.

Definition basename (p : string) : string :=
  slice_from (Z.to_nat (rfind "/" p + 1)) p.

(** The loop of [splitext] that skips the leading dots of the file name:
    [n] is the number of indices left before [dotIndex]. *)
Fixpoint splitext_scan (p : string) (dotIndex filenameIndex n : nat)
  : string * string :=
  match n with
  | O => (p, "")
  | S n' =>
      if negb (String.eqb (String.substring filenameIndex 1 p) ".")
      then (slice_to dotIndex p, slice_from dotIndex p)
      else splitext_scan p dotIndex (S filenameIndex) n'
  end.

Definition splitext (p : string) : string * string :=
  let sepIndex := rfind "/" p in
  let dotIndex := rfind "." p in
  if (sepIndex <? dotIndex)%Z
  then splitext_scan p (Z.to_nat dotIndex) (Z.to_nat (sepIndex + 1))
         (Z.to_nat (dotIndex - (sepIndex + 1)))
  else (p, "").

Definition join (a b : string) : string :=
  if startswith "/" b then b
  else if String.eqb a "" || endswith "/" a then a +:+ b
  else a +:+ "/" +:+ b.

End posixpath.

Module os.

(** [os.makedirs(name, exist_ok=...)] on the flat file system: an
    existing directory is accepted when [exist_ok] holds, an existing
    file never is. *)
Definition makedirs (name : string) (exist_ok : bool) : M unit :=
  f <- get_fs ;;
  match f !! name with
  | Some Dir =>
      if exist_ok then ret tt
      else raise (OSError ("File exists: " +:+ name))
  | Some (File _) => raise (OSError ("File exists: " +:+ name))
  | None => put_fs (<[name := Dir]> f)
  end.

Definition cpu_count : M Z := fun w => (Ok (Zpos (cpus w)), w).

End os.

Module glob.

(** No path component of [s] is empty or hidden (starts with a dot);
    [at_start] tells whether [s] begins a component. *)
Fixpoint visible (s : string) (at_start : bool) : bool :=
  match s with
  | EmptyString => negb at_start
  | String c s' =>
      if Ascii.eqb c "/" then negb at_start && visible s' true
      else if at_start && Ascii.eqb c "." then false
      else visible s' false
  end.

(** A path found below [prefix] by the pattern [**/*.obj]: any depth of
    visible directories, then a visible name that ends in [.obj]. *)
Definition matches (prefix p : string) : bool :=
  startswith prefix p &&
  let rel := slice_from (String.length prefix) p in
  visible rel true && endswith ".obj" rel.

(** [glob.glob(pattern, recursive=True)].  Only patterns of the form
    [<prefix>**/*.obj], the form the script builds, are given a meaning.
    The paths come in the order of the directory listing, which is the
    order of [map_to_list] here; files and directories alike are
    returned. *)
Definition glob_recursive (pattern : string) : M (list string) :=
  match strip_suffix "**/*.obj" pattern with
  | Some prefix =>
      f <- get_fs ;;
      ret (List.filter (matches prefix) (map fst (map_to_list f)))
  | None => ret []
  end.

End glob.

(** ** The calls into the engine *)

Module ops.

Definition modify_bpy (f : Scene -> Scene) : M unit :=
  s <- get_bpy ;; put_bpy (f s).

Definition set_light_select (b : bool) (l : Light) : Light :=
  {| light_rotation := light_rotation l; energy := energy l;
     use_shadow := use_shadow l; shadow_soft_size := shadow_soft_size l;
     light_select := b |}.

Definition set_cam_select (b : bool) (c : Camera) : Camera :=
  {| cam_type := cam_type c; cam_location := cam_location c;
     cam_rotation := cam_rotation c; ortho_scale := ortho_scale c;
     cam_select := b |}.

Definition select_everything (b : bool) (s : Scene) : Scene :=
  {| objects := map (set_select b) (objects s);
     lights := map (set_light_select b) (lights s);
     camera := option_map (set_cam_select b) (camera s);
     active := active s;
     render := render s |}.

Definition with_objects (f : list Object -> list Object) (s : Scene) : Scene :=
  {| objects := f (objects s); lights := lights s; camera := camera s;
     active := active s; render := render s |}.

Definition with_render (f : RenderSettings -> RenderSettings) (s : Scene) : Scene :=
  {| objects := objects s; lights := lights s; camera := camera s;
     active := active s; render := f (render s) |}.

(** [bpy.ops.object.select_all(action='SELECT')] *)
Definition object_select_all : M unit :=
  modify_bpy (select_everything true).

(** [bpy.ops.object.delete()]: the selected objects leave the scene;
    references taken before are void afterwards. *)
Definition object_delete : M unit :=
  modify_bpy (fun s =>
    {| objects := List.filter (fun o => negb (select o)) (objects s);
       lights := List.filter (fun l => negb (light_select l)) (lights s);
       camera := match camera s with
                 | Some c => if cam_select c then None else Some c
                 | None => None
                 end;
       active := None;
       render := render s |}).

(** The meshes the importer builds from a file: a file that is not OBJ
    text yields none. *)
Definition parse (c : content) : list Object :=
  match c with
  | ObjFile objs => objs
  | Png _ | Other => []
  end.

(** [bpy.ops.import_scene.obj(filepath=...)]: the imported objects join
    the scene and are the selection afterwards.  A path that cannot be
    opened as a file makes the operator fail. *)
Definition import_scene_obj (path : string) : M unit :=
  f <- get_fs ;;
  match f !! path with
  | Some (File c) =>
      modify_bpy (fun s =>
        with_objects (fun os => os ++ map (set_select true) (parse c))
          (select_everything false s))
  | Some Dir | None => raise (RuntimeError ("cannot read " +:+ path))
  end.

Fixpoint selected_from (i : nat) (os : list Object) : list nat :=
  match os with
  | [] => []
  | o :: os' =>
      if select o then i :: selected_from (S i) os'
      else selected_from (S i) os'
  end.

(** [bpy.context.selected_objects], as references to mesh objects (when
    the script reads it, lights and camera have been deleted). *)
Definition selected_objects : M (list nat) :=
  s <- get_bpy ;; ret (selected_from 0 (objects s)).

(** [l[0]] *)
Definition item0 {A} (l : list A) : M A :=
  match l with
  | [] => raise (IndexError "list index out of range")
  | x :: _ => ret x
  end.

(** Reading an object through a reference, and assigning to one of its
    attributes. *)
Definition get_object (obj : nat) : M Object :=
  s <- get_bpy ;;
  match objects s !! obj with
  | Some o => ret o
  | None => raise (ReferenceError "object has been removed")
  end.

Definition set_object (obj : nat) (f : Object -> Object) : M unit :=
  o <- get_object obj ;;
  modify_bpy (with_objects (fun os => <[obj := f o]> os)).

Definition set_active (r : ref) : M unit :=
  modify_bpy (fun s =>
    {| objects := objects s; lights := lights s; camera := camera s;
       active := Some r; render := render s |}).

(** [bpy.ops.object.transform_apply(...)] acts on the selection. *)
Definition object_transform_apply (loc rot scl : bool) : M unit :=
  modify_bpy (with_objects (map (on_selected (transform_apply_obj loc rot scl)))).

(** [bpy.ops.object.origin_set(type='ORIGIN_GEOMETRY', center='BOUNDS')] *)
Definition object_origin_set : M unit :=
  modify_bpy (with_objects (map (on_selected origin_set_obj))).

Definition default_sun : Light :=
  {| light_rotation := (0, 0, 0)%R; energy := 1; use_shadow := true;
     shadow_soft_size := 0.25; light_select := true |}.

(** [bpy.ops.object.light_add(type='SUN')]: the new light is the only
    selected object and the active one. *)
Definition object_light_add : M unit :=
  modify_bpy (fun s =>
    let s' := select_everything false s in
    {| objects := objects s'; lights := lights s' ++ [default_sun];
       camera := camera s'; active := Some (LightRef (length (lights s')));
       render := render s' |}).

(** [bpy.context.active_object] *)
Definition active_object : M (option ref) :=
  s <- get_bpy ;; ret (active s).

Definition set_light (r : option ref) (f : Light -> Light) : M unit :=
  s <- get_bpy ;;
  match r with
  | Some (LightRef i) =>
      match lights s !! i with
      | Some l =>
          put_bpy {| objects := objects s; lights := <[i := f l]> (lights s);
                     camera := camera s; active := active s;
                     render := render s |}
      | None => raise (ReferenceError "object has been removed")
      end
  | _ => raise (AttributeError "not a light")
  end.

Definition default_camera : Camera :=
  {| cam_type := PERSP; cam_location := vzero; cam_rotation := (0, 0, 0)%R;
     ortho_scale := 6; cam_select := false |}.

(** [bpy.data.objects.new("Camera", bpy.data.cameras.new("Camera"))],
    linked to the scene collection and made the scene camera. *)
Definition new_scene_camera : M unit :=
  modify_bpy (fun s =>
    {| objects := objects s; lights := lights s;
       camera := Some default_camera; active := active s;
       render := render s |}).

(** Assignment to an attribute of [self.camera]. *)
Definition set_camera (f : Camera -> Camera) : M unit :=
  s <- get_bpy ;;
  match camera s with
  | Some c =>
      put_bpy {| objects := objects s; lights := lights s;
                 camera := Some (f c); active := active s;
                 render := render s |}
  | None => raise (AttributeError "camera")
  end.

(** [bpy.ops.render.render(write_still=True)]: the picture of the scene
    as it stands is written to [scene.render.filepath], replacing a file
    that is there.  It fails without a camera and when the path is a
    directory. *)
Definition render_render : M unit :=
  s <- get_bpy ;;
  match camera s with
  | None => raise (RuntimeError "no camera found in scene")
  | Some _ =>
      f <- get_fs ;;
      let p := filepath (render s) in
      match f !! p with
      | Some Dir => raise (RuntimeError ("cannot write " +:+ p))
      | _ => put_fs (<[p := File (Png s)]> f)
      end
  end.

End ops.

(** ** The process pool *)

Module multiprocessing.

(** [Pool(processes)] *)
Definition Pool (processes : Z) : M unit :=
  if (processes <? 1)%Z
  then raise (ValueError "Number of processes must be at least 1")
  else ret tt.

(** The pool runs the jobs in an order of its own, the schedule [sched]
    (positions in the argument list), and files each outcome under the
    position of its argument.  Jobs are run one after the other here;
    what they share is the file system and the console. *)
Fixpoint run_jobs {A B} (f : A -> M B) (xs : list A) (sched : list nat)
    (acc : list (option (result B))) (w : World)
  : list (option (result B)) * World :=
  match sched with
  | [] => (acc, w)
  | i :: sched' =>
      match xs !! i with
      | Some x =>
          let (r, w') := f x w in
          run_jobs f xs sched' (<[i := Some r]> acc) w'
      | None => run_jobs f xs sched' acc w
      end
  end.

(** The outcomes are handed back in argument order; an exception that
    left a job is raised again in the caller. *)
Fixpoint collect {B} (acc : list (option (result B))) : result (list B) :=
  match acc with
  | [] => Ok []
  | None :: acc' => collect acc'
  | Some (Raise e) :: _ => Raise e
  | Some (Ok b) :: acc' =>
      match collect acc' with
      | Ok bs => Ok (b :: bs)
      | Raise e => Raise e
      end
  end.

(** [pool.map(f, xs)] under the schedule [sched]. *)
Definition pool_map {A B} (sched : list nat) (f : A -> M B) (xs : list A)
  : M (list B) :=
  fun w =>
    let (acc, w') := run_jobs f xs sched (replicate (length xs) None) w in
    (collect acc, w').

End multiprocessing.

(** ** The script *)

Module obj2png.

Import posixpath ops multiprocessing.

Record ThreeViewRenderer : Type := mkRenderer {
  obj_path : string;
  output_dir : string;
  resolution : Z;
  background_color : Q * Q * Q
}.

(** [math.radians] *)
Definition radians (deg : R) : R := (deg * PI / 180)%R.

(** A position given as a tuple of integers, assigned to a location. *)
Definition Vector (p : Z * Z * Z) : vec3 :=
  let '(x, y, z) := p in (inject_Z x, inject_Z y, inject_Z z).

(** [min(l)] and [max(l)] of a non-empty list of numbers. *)
Definition py_min (l : list Q) : Q :=
  match l with
  | [] => 0
  | x :: l' => fold_left Qmin l' x
  end.

Definition py_max (l : list Q) : Q :=
  match l with
  | [] => 0
  | x :: l' => fold_left Qmax l' x
  end.

(** [zip( *corners )]: the x, the y and the z coordinates. *)
Definition zip_star (l : list vec3) : list Q * list Q * list Q :=
  (map (fun p => p.1.1) l, map (fun p => p.1.2) l, map (fun p => p.2) l).

Definition _reset_model_transform (obj : nat) : M unit :=
  set_active (MeshRef obj) ;;;
  set_object obj (set_select true) ;;;
  object_transform_apply true true true ;;;
  object_origin_set ;;;
  set_object obj (set_location (0, 0, 0)%Q) ;;;
  set_object obj (set_rotation mat_id) ;;;
  o <- get_object obj ;;
  let dimensions := dimensions o in
  let max_dim := max3 dimensions in
  (if negb (Qeq_bool max_dim 0)
   then scale_factor <- truediv 2.0 max_dim ;;
        set_object obj (set_scale (scale_factor, scale_factor, scale_factor))
   else ret tt) ;;;
  object_transform_apply false false true.

Definition _add_sun_light (rotation : euler) (energy_ : Q) : M unit :=
  object_light_add ;;;
  sun <- active_object ;;
  set_light sun (fun l =>
    {| light_rotation := rotation; energy := energy l;
       use_shadow := use_shadow l; shadow_soft_size := shadow_soft_size l;
       light_select := light_select l |}) ;;;
  set_light sun (fun l =>
    {| light_rotation := light_rotation l; energy := energy_;
       use_shadow := use_shadow l; shadow_soft_size := shadow_soft_size l;
       light_select := light_select l |}) ;;;
  set_light sun (fun l =>
    {| light_rotation := light_rotation l; energy := energy l;
       use_shadow := true; shadow_soft_size := shadow_soft_size l;
       light_select := light_select l |}) ;;;
  set_light sun (fun l =>
    {| light_rotation := light_rotation l; energy := energy l;
       use_shadow := use_shadow l; shadow_soft_size := 2.0;
       light_select := light_select l |}).

Definition _set_camera_position (position : Z * Z * Z) (rotation : euler)
  : M unit :=
  set_camera (fun c =>
    {| cam_type := cam_type c; cam_location := Vector position;
       cam_rotation := cam_rotation c; ortho_scale := ortho_scale c;
       cam_select := cam_select c |}) ;;;
  set_camera (fun c =>
    {| cam_type := cam_type c; cam_location := cam_location c;
       cam_rotation := rotation; ortho_scale := ortho_scale c;
       cam_select := cam_select c |}).

Definition _auto_adjust_camera (obj : nat) : M unit :=
  o <- get_object obj ;;
  let bbox_corners := map (matrix_world o) (bound_box o) in
  let '(xs, ys, zs) := zip_star bbox_corners in
  let bbox_min := (py_min xs, py_min ys, py_min zs) in
  let bbox_max := (py_max xs, py_max ys, py_max zs) in
  let dimensions := vsub bbox_max bbox_min in
  let max_dim := max3 dimensions in
  set_camera (fun c =>
    {| cam_type := cam_type c; cam_location := cam_location c;
       cam_rotation := cam_rotation c; ortho_scale := max_dim * 1.2;
       cam_select := cam_select c |}) ;;;
  let center := vdiv (vadd bbox_max bbox_min) 2 in
  set_object obj (set_location (vneg center)).

Definition _setup_scene (self : ThreeViewRenderer) : M unit :=
  object_select_all ;;;
  object_delete ;;;
  import_scene_obj (obj_path self) ;;;
  selected <- selected_objects ;;
  obj <- item0 selected ;;
  _reset_model_transform obj ;;;
  modify_bpy (with_render (fun r =>
    {| resolution_x := resolution self; resolution_y := resolution self;
       resolution_percentage := 100; file_format := "PNG";
       color_mode := "RGBA"; filepath := filepath r |})) ;;;
  _add_sun_light (radians 45, radians 45, 0%R) 3.0 ;;;
  new_scene_camera ;;;
  set_camera (fun c =>
    {| cam_type := ORTHO; cam_location := cam_location c;
       cam_rotation := cam_rotation c; ortho_scale := ortho_scale c;
       cam_select := cam_select c |}) ;;;
  _auto_adjust_camera obj.

(** [ThreeViewRenderer(obj_path, output_dir, resolution, background_color)] *)
Definition __init__ (obj_path_ output_dir_ : string) (resolution_ : Z)
    (background_color_ : Q * Q * Q) : M ThreeViewRenderer :=
  let self := {| obj_path := obj_path_; output_dir := output_dir_;
                 resolution := resolution_;
                 background_color := background_color_ |} in
  _setup_scene self ;;;
  ret self.

Definition render_view (self : ThreeViewRenderer) (view_name : string)
    (position : Z * Z * Z) (rotation : euler) : M unit :=
  _set_camera_position position rotation ;;;
  let output_path := join (output_dir self) (view_name +:+ ".png") in
  modify_bpy (with_render (fun r =>
    {| resolution_x := resolution_x r; resolution_y := resolution_y r;
       resolution_percentage := resolution_percentage r;
       file_format := file_format r; color_mode := color_mode r;
       filepath := output_path |})) ;;;
  render_render ;;;
  print ("已渲染 " +:+ view_name +:+ " 视图: " +:+ output_path).

Definition view : Type := string * ((Z * Z * Z) * euler).

(** The two dictionaries of [render_all_views], in insertion order. *)
Definition orthographic_views : list view :=
  [ ("front", ((0, -15, 0)%Z, (radians 90, 0, radians 180)%R));
    ("back", ((0, 15, 0)%Z, (radians 90, 0, 0)%R));
    ("right", ((15, 0, 0)%Z, (radians 90, 0, radians 90)%R));
    ("left", ((-15, 0, 0)%Z, (radians 90, 0, radians (-90))%R));
    ("top", ((0, 0, 15)%Z, (0, 0, radians 180)%R));
    ("bottom", ((0, 0, -15)%Z, (radians 180, 0, radians 180)%R)) ].

Definition iso_distance : Z := 15.
Definition iso_angle : R := radians 54.736.

Definition iso_views : list view :=
  [ ("standard",
     ((iso_distance, - iso_distance, iso_distance)%Z,
      (iso_angle, 0, radians 45)%R));
    ("iso_back",
     ((- iso_distance, iso_distance, iso_distance)%Z,
      (iso_angle, 0, radians 225)%R));
    ("iso_left",
     ((- iso_distance, - iso_distance, iso_distance)%Z,
      (iso_angle, 0, radians 315)%R));
    ("iso_right",
     ((iso_distance, iso_distance, iso_distance)%Z,
      (iso_angle, 0, radians 135)%R)) ].

Definition nl : string := String (ascii_of_nat 10) "".

Definition render_all_views (self : ThreeViewRenderer) : M unit :=
  print (nl +:+ "正在渲染正交视图...") ;;;
  for_each orthographic_views (fun '(view_name, (position, rotation)) =>
    render_view self view_name position rotation) ;;;
  print (nl +:+ "正在渲染等轴测视图...") ;;;
  for_each iso_views (fun '(view_name, (position, rotation)) =>
    render_view self view_name position rotation).

Definition success_line (obj_path_ : string) : string :=
  "成功渲染: " +:+ obj_path_.

Definition failure_line (obj_path_ : string) (e : exn) : string :=
  "渲染失败 " +:+ obj_path_ +:+ ": " +:+ str e.

(** The [try] block of [process_single_model]. *)
Definition job_body (args : string * string * Z) : M string :=
  let '(obj_path_, output_dir_, resolution_) := args in
  let model_output_dir :=
    join output_dir_ (splitext (basename obj_path_)).1 in
  os.makedirs model_output_dir true ;;;
  renderer <- __init__ obj_path_ model_output_dir resolution_ (1, 1, 1)%Q ;;
  render_all_views renderer ;;;
  ret (success_line obj_path_).

Definition process_single_model (args : string * string * Z) : M string :=
  try_except_Exception (job_body args)
    (fun e => ret (failure_line (args.1.1) e)).

Definition batch_render (sched : list nat) (input_dir output_dir_ : string)
    (resolution_ : Z) (num_processes : option Z) : M unit :=
  obj_files <- glob.glob_recursive (join input_dir "**/*.obj") ;;
  match obj_files with
  | [] => print ("在 " +:+ input_dir +:+ " 中未找到OBJ文件")
  | _ =>
      num_processes <- match num_processes with
                       | None => os.cpu_count
                       | Some n => ret n
                       end ;;
      let render_args :=
        map (fun obj_file => (obj_file, output_dir_, resolution_)) obj_files in
      print ("开始并行渲染，使用 " +:+ pretty num_processes +:+ " 个进程...") ;;;
      Pool num_processes ;;;
      results <- pool_map sched process_single_model render_args ;;
      for_each results print
  end.

Record Args : Type := mkArgs {
  arg_input_dir : string;
  arg_output_dir : string;
  arg_resolution : Z;
  arg_processes : option Z
}.

Definition main (sched : list nat) (args : Args) : M unit :=
  os.makedirs (arg_output_dir args) true ;;;
  batch_render sched (arg_input_dir args) (arg_output_dir args)
    (arg_resolution args) (arg_processes args).

End obj2png.

(** ** Derived notions used to state and prove the properties *)

Module Derived.

Import posixpath ops multiprocessing obj2png.

Definition with_bpy (w : World) (s : Scene) : World :=
  {| fs := fs w; stdout := stdout w; bpy := s; cpus := cpus w |}.

(** [wp m post w]: run from [w], [m] returns normally and [post] holds of
    its value and of the world it leaves. *)
Definition wp {A} (m : M A) (post : A -> World -> Prop) (w : World) : Prop :=
  match m w with
  | (Ok a, w') => post a w'
  | (Raise _, _) => False
  end.

(** [m] lets no exception out that [except Exception] would not catch. *)
Definition only_Exception {A} (m : M A) : Prop :=
  forall w e w', m w = (Raise e, w') -> is_Exception e = true.

(** The object that [_reset_model_transform] makes of the one it is
    given: first selected, baked, centred and put at the origin, ... *)
Definition centred (o : Object) : Object :=
  set_rotation mat_id
    (set_location (0, 0, 0)%Q
       (origin_set_obj (transform_apply_obj true true true (set_select true o)))).

(** ... then scaled, unless its largest dimension is zero. *)
Definition normalized (o : Object) : Object :=
  let o2 := centred o in
  let max_dim := max3 (dimensions o2) in
  transform_apply_obj false false true
    (if negb (Qeq_bool max_dim 0)
     then set_scale (2.0 / max_dim, 2.0 / max_dim, 2.0 / max_dim)%Q o2
     else o2).

(** The box that [_auto_adjust_camera] measures: minimum and maximum of
    the eight local corners carried to world space. *)
Definition corner_box (o : Object) : vec3 * vec3 :=
  let '(xs, ys, zs) := zip_star (map (matrix_world o) (bound_box o)) in
  ((py_min xs, py_min ys, py_min zs), (py_max xs, py_max ys, py_max zs)).

Definition corner_extent (o : Object) : Q :=
  let (lo, hi) := corner_box o in max3 (vsub hi lo).

Definition recentred (o : Object) : Object :=
  let (lo, hi) := corner_box o in
  set_location (vneg (vdiv (vadd hi lo) 2)) o.

(** An object [k] times as large: its scale is multiplied by [k]. *)
Definition enlarged (k : Q) (o : Object) : Object :=
  set_scale (vmul (k, k, k) (scale o)) o.

(** The ten views in the order of the two loops of [render_all_views]. *)
Definition all_views : list view := orthographic_views ++ iso_views.

(** Where [render_view] writes the picture of a view, and the line it
    prints. *)
Definition view_path (dir : string) (v : view) : string :=
  join dir (v.1 +:+ ".png").

Definition view_line (dir : string) (v : view) : string :=
  "已渲染 " +:+ v.1 +:+ " 视图: " +:+ view_path dir v.

(** The camera put in the pose of a view, and the scene as it stands
    when that view is rendered. *)
Definition pose (v : view) (c : Camera) : Camera :=
  {| cam_type := cam_type c; cam_location := Vector v.2.1;
     cam_rotation := v.2.2; ortho_scale := ortho_scale c;
     cam_select := cam_select c |}.

Definition shot (dir : string) (s : Scene) (v : view) : Scene :=
  {| objects := objects s; lights := lights s;
     camera := option_map (pose v) (camera s); active := active s;
     render :=
       {| resolution_x := resolution_x (render s);
          resolution_y := resolution_y (render s);
          resolution_percentage := resolution_percentage (render s);
          file_format := file_format (render s);
          color_mode := color_mode (render s);
          filepath := view_path dir v |} |}.

(** The file system after the views [vs] of the scene [s] were written. *)
Definition write_views (dir : string) (s : Scene) (vs : list view)
    (f : gmap string node) : gmap string node :=
  fold_left (fun f v => <[view_path dir v := File (Png (shot dir s v))]> f) vs f.





(** The Render Job Result that [process_single_model] makes of the
    outcome of its [try] block, and the two marks a result can carry. *)
Definition line_of (args : string * string * Z) (r : result string) : string :=
  match r with
  | Ok line => line
  | Raise e => failure_line args.1.1 e
  end.


(** The output directory of the job for [obj_path]. *)
Definition model_output_dir (output_dir_ obj_path_ : string) : string :=
  join output_dir_ (splitext (basename obj_path_)).1.


(** What [os.path.join] puts in front of a relative second argument. *)
Definition join_prefix (dir : string) : string :=
  if String.eqb dir "" || endswith "/" dir then dir else dir +:+ "/".

(** What the two [transform_apply] calls and [origin_set] of
    [_reset_model_transform] make of a selected object. *)
Definition baked (o : Object) : Object :=
  transform_apply_obj false false true
    (origin_set_obj (transform_apply_obj true true true o)).

(** The light that [_setup_scene] asks for. *)
Definition sun : Light :=
  {| light_rotation := (radians 45, radians 45, 0)%R; energy := 3.0;
     use_shadow := true; shadow_soft_size := 2.0; light_select := true |}.

(** The scene after [select_all] and [delete]. *)
Definition cleared (s : Scene) : Scene :=
  {| objects := []; lights := []; camera := None; active := None;
     render := render s |}.

(** The scene that [_setup_scene] builds from the meshes [o :: rest] of
    its file, for the resolution [res]; [path0] is the render file path
    the engine held before. *)
Definition constructed (res : Z) (path0 : string) (o : Object)
    (rest : list Object) : Scene :=
  let o' := set_select false (normalized (set_select true o)) in
  {| objects :=
       recentred o' ::
       map (fun r => set_select false (baked (set_select true r))) rest;
     lights := [sun];
     camera := Some {| cam_type := ORTHO; cam_location := vzero;
                       cam_rotation := (0, 0, 0)%R;
                       ortho_scale := (corner_extent o' * 1.2)%Q;
                       cam_select := false |};
     active := Some (LightRef 0);
     render := {| resolution_x := res; resolution_y := res;
                  resolution_percentage := 100; file_format := "PNG";
                  color_mode := "RGBA"; filepath := path0 |} |}.

(** The centre of the box that [_auto_adjust_camera] measures. *)
Definition corner_center (o : Object) : vec3 :=
  let (lo, hi) := corner_box o in vdiv (vadd hi lo) 2.

Definition with_fs (w : World) (f : gmap string node) : World :=
  {| fs := f; stdout := stdout w; bpy := bpy w; cpus := cpus w |}.

(** [m] changes the file system at most at the paths [ps], whether it
    returns or raises. *)
Definition writes_within {A} (ps : list string) (m : M A) : Prop :=
  forall w q, ~ In q ps -> fs (m w).2 !! q = fs w !! q.

(** [m] leaves a node that exists at [q] as it is. *)
Definition keeps_node {A} (q : string) (m : M A) : Prop :=
  forall w n, fs w !! q = Some n -> fs (m w).2 !! q = Some n.

(** The paths at which the job for [obj_path] may write: its output
    directory and the ten picture paths below it. *)
Definition footprint (output_dir_ obj_path_ : string) : list string :=
  model_output_dir output_dir_ obj_path_ ::
  map (view_path (model_output_dir output_dir_ obj_path_)) all_views.


End Derived.

(** ** Sample data *)

Module Example.

Import ops.

(** A box-shaped mesh given by two opposite corners, away from the
    origin and scaled, and a mesh that is a single point. *)
Definition mesh : Object :=
  {| data := [(0, 0, 0); (1, 2, 4)]%Q; location := (1, 1, 1)%Q;
     rotation := mat_id; scale := (2, 2, 2)%Q; select := false |}.

Definition point_mesh : Object :=
  {| data := [(3, 3, 3)]%Q; location := (1, 0, 0)%Q;
     rotation := mat_id; scale := vone; select := false |}.

Definition settings : RenderSettings :=
  {| resolution_x := 1920; resolution_y := 1080; resolution_percentage := 50;
     file_format := "JPEG"; color_mode := "RGB"; filepath := "/tmp/" |}.

Definition scene_of (o : Object) : Scene :=
  {| objects := [o]; lights := []; camera := Some default_camera;
     active := None; render := settings |}.

Definition empty_scene : Scene :=
  {| objects := []; lights := []; camera := None; active := None;
     render := settings |}.

Definition renderer : obj2png.ThreeViewRenderer :=
  {| obj2png.obj_path := "in/a.obj"; obj2png.output_dir := "out/a";
     obj2png.resolution := 512; obj2png.background_color := (1, 1, 1)%Q |}.

Definition world_of (o : Object) : World :=
  {| fs := ∅; stdout := []; bpy := scene_of o; cpus := 4 |}.

(** An input tree with two meshes of the same name in different
    directories, a file that is not a mesh, and a mesh whose output
    directory is taken by a file. *)
Definition disk : gmap string node :=
  <["in/a.obj" := File (ObjFile [mesh])]>
  (<["in/sub/a.obj" := File (ObjFile [point_mesh])]>
  (<["in/b.obj" := File Other]>
  (<["in/c.obj" := File (ObjFile [mesh])]>
  (<["out/c" := File Other]> ∅)))).

Definition world : World :=
  {| fs := disk; stdout := []; bpy := empty_scene; cpus := 4 |}.









End Example.

(** * Properties *)

Import posixpath ops multiprocessing obj2png Derived.

(** ** Rational arithmetic of boxes *)

Section Boxes.

Local Open Scope Q_scope.

Lemma Qmin_affine (a b x y x' y' : Q) :
  0 <= a -> x' == a * x + b -> y' == a * y + b ->
  Qmin x' y' == a * Qmin x y + b.
Proof.
  intros Ha Hx Hy.
  destruct (Q.min_spec x y) as [[H1 ->]|[H1 ->]];
  destruct (Q.min_spec x' y') as [[H2 ->]|[H2 ->]]; try assumption; nra.
Qed.

Lemma Qmax_affine (a b x y x' y' : Q) :
  0 <= a -> x' == a * x + b -> y' == a * y + b ->
  Qmax x' y' == a * Qmax x y + b.
Proof.
  intros Ha Hx Hy.
  destruct (Q.max_spec x y) as [[H1 ->]|[H1 ->]];
  destruct (Q.max_spec x' y') as [[H2 ->]|[H2 ->]]; try assumption; nra.
Qed.

Lemma fold_min_affine {A} (g h : A -> Q) (a b : Q) (l : list A) :
  0 <= a -> (forall p, g p == a * h p + b) ->
  forall u v, u == a * v + b ->
  fold_left Qmin (map g l) u == a * fold_left Qmin (map h l) v + b.
Proof.
  intros Ha Hg. induction l as [|p l IH]; intros u v Huv; simpl; [exact Huv|].
  apply IH. apply Qmin_affine; auto.
Qed.

Lemma fold_max_affine {A} (g h : A -> Q) (a b : Q) (l : list A) :
  0 <= a -> (forall p, g p == a * h p + b) ->
  forall u v, u == a * v + b ->
  fold_left Qmax (map g l) u == a * fold_left Qmax (map h l) v + b.
Proof.
  intros Ha Hg. induction l as [|p l IH]; intros u v Huv; simpl; [exact Huv|].
  apply IH. apply Qmax_affine; auto.
Qed.

(** Minimum and maximum of a non-empty list follow a map that is affine
    with a non-negative slope. *)
Lemma py_min_affine {A} (g h : A -> Q) (a b : Q) (l : list A) :
  l <> [] -> 0 <= a -> (forall p, g p == a * h p + b) ->
  py_min (map g l) == a * py_min (map h l) + b.
Proof.
  destruct l as [|p l]; [congruence|]. intros _ Ha Hg. simpl.
  apply fold_min_affine; auto.
Qed.

Lemma py_max_affine {A} (g h : A -> Q) (a b : Q) (l : list A) :
  l <> [] -> 0 <= a -> (forall p, g p == a * h p + b) ->
  py_max (map g l) == a * py_max (map h l) + b.
Proof.
  destruct l as [|p l]; [congruence|]. intros _ Ha Hg. simpl.
  apply fold_max_affine; auto.
Qed.

Lemma fold_min_le_max (l : list Q) :
  forall u v, u <= v -> fold_left Qmin l u <= fold_left Qmax l v.
Proof.
  induction l as [|x l IH]; intros u v Huv; simpl; [exact Huv|].
  apply IH.
  destruct (Q.min_spec u x) as [[? ->]|[? ->]];
  destruct (Q.max_spec v x) as [[? ->]|[? ->]]; lra.
Qed.

Lemma py_min_le_max (l : list Q) : py_min l <= py_max l.
Proof.
  destruct l as [|x l]; simpl; [lra|]. apply fold_min_le_max. lra.
Qed.

(** The box of a non-empty vertex list, coordinate by coordinate. *)
Lemma minmax_fold (l : list vec3) :
  forall lo hi : vec3,
  fold_left (fun b p => (vmin b.1 p, vmax b.2 p)) l (lo, hi) =
  ((fold_left Qmin (map (fun p : vec3 => p.1.1) l) lo.1.1,
    fold_left Qmin (map (fun p : vec3 => p.1.2) l) lo.1.2,
    fold_left Qmin (map (fun p : vec3 => p.2) l) lo.2),
   (fold_left Qmax (map (fun p : vec3 => p.1.1) l) hi.1.1,
    fold_left Qmax (map (fun p : vec3 => p.1.2) l) hi.1.2,
    fold_left Qmax (map (fun p : vec3 => p.2) l) hi.2)).
Proof.
  induction l as [|[[x y] z] l IH]; intros [[a b] c] [[d e] f]; simpl.
  - reflexivity.
  - rewrite IH. reflexivity.
Qed.

Lemma minmax_coords (l : list vec3) :
  l <> [] ->
  minmax l =
  ((py_min (map (fun p : vec3 => p.1.1) l),
    py_min (map (fun p : vec3 => p.1.2) l),
    py_min (map (fun p : vec3 => p.2) l)),
   (py_max (map (fun p : vec3 => p.1.1) l),
    py_max (map (fun p : vec3 => p.1.2) l),
    py_max (map (fun p : vec3 => p.2) l))).
Proof.
  destruct l as [|[[x y] z] l]; [congruence|]. intros _.
  unfold minmax. rewrite minmax_fold. reflexivity.
Qed.

Lemma max3_scale (a x y z : Q) :
  0 <= a -> max3 (a * x, a * y, a * z) == a * max3 (x, y, z).
Proof.
  intros Ha. unfold max3.
  assert (H : forall u v u' v', u' == a * u -> v' == a * v ->
            Qmax u' v' == a * Qmax u v).
  { intros u v u' v' Hu Hv.
    rewrite (Qmax_affine a 0 u v u' v'); lra. }
  apply H; [apply H|]; reflexivity.
Qed.

Lemma max3_compat (x y z x' y' z' : Q) :
  x == x' -> y == y' -> z == z' -> max3 (x, y, z) == max3 (x', y', z').
Proof. intros H1 H2 H3. unfold max3. rewrite H1, H2, H3. reflexivity. Qed.

End Boxes.

(** ** The normaliser on one object *)

Section Normaliser.

Local Open Scope Q_scope.

Lemma veq_refl (v : vec3) : veq v v.
Proof. destruct v as [[x y] z]. simpl. repeat split; reflexivity. Qed.

(** The box of the image of a vertex list under a map that scales by
    [a >= 0] and translates by [b]. *)
Lemma box_affine (l : list vec3) (F : vec3 -> vec3) (a : Q) (b : vec3) :
  l <> [] -> 0 <= a ->
  (forall p, veq (F p) (vadd (vmul (a, a, a) p) b)) ->
  veq (minmax (map F l)).1 (vadd (vmul (a, a, a) (minmax l).1) b) /\
  veq (minmax (map F l)).2 (vadd (vmul (a, a, a) (minmax l).2) b).
Proof.
  intros Hl Ha HF.
  assert (Hl' : map F l <> []) by (destruct l; simpl; congruence).
  rewrite (minmax_coords l Hl), (minmax_coords _ Hl').
  rewrite !map_map. destruct b as [[bx by_] bz]. simpl.
  repeat split;
    (apply py_min_affine || apply py_max_affine); auto;
    intros p; specialize (HF p);
    destruct (F p) as [[fx fy] fz], p as [[px py_] pz];
    simpl in *; tauto.
Qed.

Lemma minmax_ordered (l : list vec3) :
  let '((x0, y0, z0), (x1, y1, z1)) := minmax l in
  x0 <= x1 /\ y0 <= y1 /\ z0 <= z1.
Proof.
  destruct l as [|p l].
  - simpl. repeat split; lra.
  - rewrite minmax_coords by congruence.
    repeat split; apply py_min_le_max.
Qed.


(** Case analysis on every [Qmin] and [Qmax] in sight. *)
Ltac minmax_cases :=
  repeat match goal with
  | |- context [Qmin ?a ?b] =>
      let H := fresh "Hmin" in
      pose proof (Q.min_spec a b) as H;
      let m := fresh "m" in remember (Qmin a b) as m in *;
      match goal with E : m = Qmin a b |- _ => clear E end
  | |- context [Qmax ?a ?b] =>
      let H := fresh "Hmax" in
      pose proof (Q.max_spec a b) as H;
      let m := fresh "m" in remember (Qmax a b) as m in *;
      match goal with E : m = Qmax a b |- _ => clear E end
  | H : context [Qmin ?a ?b] |- _ =>
      let H := fresh "Hmin" in
      pose proof (Q.min_spec a b) as H;
      let m := fresh "m" in remember (Qmin a b) as m in *;
      match goal with E : m = Qmin a b |- _ => clear E end
  | H : context [Qmax ?a ?b] |- _ =>
      let H := fresh "Hmax" in
      pose proof (Q.max_spec a b) as H;
      let m := fresh "m" in remember (Qmax a b) as m in *;
      match goal with E : m = Qmax a b |- _ => clear E end
  end.

(** For an object without rotation and with unit scale, the measured
    box is the local box moved to the object's location. *)
Lemma corner_box_normal_form (o : Object) (t : vec3) :
  location o = t -> rotation o = mat_id -> scale o = vone ->
  veq (corner_box o).1 (vadd (minmax (data o)).1 t) /\
  veq (corner_box o).2 (vadd (minmax (data o)).2 t).
Proof.
  intros Hl Hr Hs.
  pose proof (minmax_ordered (data o)) as Hord.
  unfold corner_box, bound_box, matrix_world. rewrite Hl, Hr, Hs.
  destruct (minmax (data o)) as [[[x0 y0] z0] [[x1 y1] z1]].
  destruct t as [[tx ty] tz]. destruct Hord as (Hx & Hy & Hz).
  simpl. repeat split; minmax_cases; lra.
Qed.


Lemma world_box_normal_form (o : Object) (t : vec3) :
  location o = t -> rotation o = mat_id -> scale o = vone -> data o <> [] ->
  veq (minmax (world_vertices o)).1 (vadd (minmax (data o)).1 t) /\
  veq (minmax (world_vertices o)).2 (vadd (minmax (data o)).2 t).
Proof.
  intros Hl Hr Hs Hd. unfold world_vertices.
  destruct (box_affine (data o) (matrix_world o) 1 t Hd) as [H1 H2]; [lra| |].
  - intros [[px py_] pz]. unfold matrix_world. rewrite Hl, Hr, Hs.
    destruct t as [[tx ty] tz]. simpl. repeat split; ring.
  - destruct (minmax (map (matrix_world o) (data o))) as [[[a b] c] [[d e] f]].
    destruct (minmax (data o)) as [[[x0 y0] z0] [[x1 y1] z1]].
    destruct t as [[tx ty] tz]. simpl in *. repeat split; lra.
Qed.

Lemma normalized_fields (o : Object) :
  location (normalized o) = (0, 0, 0) /\
  rotation (normalized o) = mat_id /\
  scale (normalized o) = vone.
Proof.
  unfold normalized.
  destruct (negb (Qeq_bool (max3 (dimensions (centred o))) 0)); simpl; auto.
Qed.

Lemma centred_data (o : Object) :
  data (centred o) =
  map (fun p => vsub p (vdiv (vadd (minmax (world_vertices o)).1
                                   (minmax (world_vertices o)).2) 2))
      (world_vertices o).
Proof.
  unfold centred, origin_set_obj, world_vertices. simpl.
  change (fun p : vec3 =>
            vadd (location o) (mat_vec (rotation o) (vmul (scale o) p)))
    with (matrix_world o).
  destruct (minmax (map (matrix_world o) (data o))) as [lo hi]. reflexivity.
Qed.

Lemma centred_fields (o : Object) :
  location (centred o) = (0, 0, 0) /\
  rotation (centred o) = mat_id /\
  scale (centred o) = vone /\
  select (centred o) = true.
Proof.
  unfold centred, origin_set_obj.
  destruct (minmax (data (transform_apply_obj true true true
                            (set_select true o)))).
  simpl. auto.
Qed.

Lemma world_vertices_nil (o : Object) :
  data o = [] <-> world_vertices o = [].
Proof.
  unfold world_vertices. destruct (data o); simpl; split; congruence.
Qed.

(** What the normaliser measures as the largest dimension is the largest
    extent of the mesh in world space. *)
Lemma centred_max_dim (o : Object) :
  data o <> [] ->
  max3 (dimensions (centred o)) == world_extent o.
Proof.
  intros Hd. unfold dimensions. rewrite centred_data.
  destruct (centred_fields o) as (_ & _ & -> & _).
  assert (HW : world_vertices o <> []) by (rewrite <- world_vertices_nil; auto).
  set (c := vdiv _ 2).
  destruct (box_affine (world_vertices o) (fun p => vsub p c) 1 (vneg c) HW)
    as [H1 H2]; [lra| |].
  - intros [[px py_] pz]. destruct c as [[cx cy] cz]. simpl.
    repeat split; ring.
  - unfold world_extent. clearbody c.
    destruct (minmax (map _ (world_vertices o))) as [[[a b] d] [[e f] g]].
    destruct (minmax (world_vertices o)) as [[[x0 y0] z0] [[x1 y1] z1]].
    destruct c as [[cx cy] cz]. simpl in *.
    destruct H1 as (? & ? & ?), H2 as (? & ? & ?).
    apply max3_compat; simpl; change (Z.abs 1 # 1) with 1; lra.
Qed.







End Normaliser.

(** ** Running the monad *)

Section Running.

Context {A B : Type}.

Lemma wp_ret (a : A) (post : A -> World -> Prop) (w : World) :
  post a w -> wp (ret a) post w.
Proof. intros H. exact H. Qed.

Lemma wp_bind (m : M A) (k : A -> M B) (post : B -> World -> Prop) (w : World) :
  wp m (fun a w' => wp (k a) post w') w -> wp (bind m k) post w.
Proof.
  unfold wp, bind. destruct (m w) as [[a|e] w']; auto.
Qed.

Lemma wp_run (m : M A) (post : A -> World -> Prop) (w : World) :
  wp m post w -> exists a w', m w = (Ok a, w') /\ post a w'.
Proof.
  unfold wp. destruct (m w) as [[a|e] w']; [eauto | tauto].
Qed.

Lemma wp_of_run (m : M A) (post : A -> World -> Prop) (w w' : World) (a : A) :
  m w = (Ok a, w') -> post a w' -> wp m post w.
Proof. unfold wp. intros -> H. exact H. Qed.

Lemma wp_weaken (m : M A) (post post' : A -> World -> Prop) (w : World) :
  (forall a w', post a w' -> post' a w') -> wp m post w -> wp m post' w.
Proof.
  unfold wp. intros H. destruct (m w) as [[a|e] w']; auto.
Qed.

End Running.

Lemma wp_modify_bpy (f : Scene -> Scene) (post : unit -> World -> Prop) w :
  post tt (with_bpy w (f (bpy w))) -> wp (modify_bpy f) post w.
Proof. intros H. exact H. Qed.

Lemma wp_get_object (i : nat) (o : Object) (post : Object -> World -> Prop) w :
  objects (bpy w) !! i = Some o -> post o w -> wp (get_object i) post w.
Proof.
  intros Hi H. unfold wp, get_object, bind, get_bpy. rewrite Hi. exact H.
Qed.

Lemma wp_set_object (i : nat) (o : Object) (f : Object -> Object)
    (post : unit -> World -> Prop) w :
  objects (bpy w) !! i = Some o ->
  post tt (with_bpy w (with_objects (fun os => <[i := f o]> os) (bpy w))) ->
  wp (set_object i f) post w.
Proof.
  intros Hi H. unfold set_object. apply wp_bind.
  apply (wp_get_object i o); [exact Hi|]. apply wp_modify_bpy. exact H.
Qed.

Lemma wp_set_camera (f : Camera -> Camera) (c : Camera)
    (post : unit -> World -> Prop) w :
  camera (bpy w) = Some c ->
  post tt (with_bpy w {| objects := objects (bpy w); lights := lights (bpy w);
                         camera := Some (f c); active := active (bpy w);
                         render := render (bpy w) |}) ->
  wp (set_camera f) post w.
Proof.
  intros Hc H. unfold wp, set_camera, bind, get_bpy. rewrite Hc. exact H.
Qed.

Lemma on_selected_true (f : Object -> Object) (o : Object) :
  select o = true -> on_selected f o = f o.
Proof. unfold on_selected. intros ->. reflexivity. Qed.

Lemma select_origin_set (o : Object) : select (origin_set_obj o) = select o.
Proof. unfold origin_set_obj. destruct (minmax (data o)). reflexivity. Qed.

(** [_reset_model_transform] returns, and leaves the object it was given
    as [normalized] describes. *)
Lemma reset_model_transform_wp (i : nat) (o : Object) (w : World) :
  objects (bpy w) !! i = Some o ->
  wp (_reset_model_transform i)
     (fun _ w' =>
        objects (bpy w') !! i = Some (normalized o) /\
        camera (bpy w') = camera (bpy w) /\
        lights (bpy w') = lights (bpy w) /\
        render (bpy w') = render (bpy w) /\
        fs w' = fs w /\ stdout w' = stdout w /\ cpus w' = cpus w) w.
Proof.
  intros Hi. pose proof (lookup_lt_Some _ _ _ Hi) as Hlt.
  unfold _reset_model_transform.
  apply wp_bind, wp_modify_bpy.
  apply wp_bind, (wp_set_object i o); [exact Hi|].
  apply wp_bind, wp_modify_bpy.
  apply wp_bind, wp_modify_bpy.
  set (o1 := origin_set_obj (transform_apply_obj true true true (set_select true o))).
  assert (Hs1 : select o1 = true) by (unfold o1; rewrite select_origin_set; reflexivity).
  apply wp_bind, (wp_set_object i o1).
  { cbn. rewrite !list_lookup_fmap, list_lookup_insert_eq by exact Hlt.
    cbn. reflexivity. }
  apply wp_bind, (wp_set_object i (set_location (0, 0, 0)%Q o1)).
  { cbn. apply list_lookup_insert_eq. rewrite !length_map, length_insert. exact Hlt. }
  apply wp_bind, (wp_get_object i (centred o)).
  { cbn. apply list_lookup_insert_eq.
    rewrite length_insert, !length_map, length_insert. exact Hlt. }
  apply wp_bind.
  set (md := max3 (dimensions (centred o))).
  assert (Hfin : forall o5 w5,
     objects (bpy w5) !! i = Some o5 -> select o5 = true ->
     wp (object_transform_apply false false true)
       (fun _ w' => objects (bpy w') !! i =
                      Some (transform_apply_obj false false true o5) /\
                    camera (bpy w') = camera (bpy w5) /\
                    lights (bpy w') = lights (bpy w5) /\
                    render (bpy w') = render (bpy w5) /\
                    fs w' = fs w5 /\ stdout w' = stdout w5 /\
                    cpus w' = cpus w5) w5).
  { intros o5 w5 H5 Hs5. apply wp_modify_bpy. cbn.
    rewrite list_lookup_fmap, H5. cbn. rewrite on_selected_true by exact Hs5.
    repeat split. }
  unfold normalized. fold md.
  destruct (Qeq_bool md 0) eqn:Hmd; cbn [negb].
  - apply wp_ret. eapply wp_weaken; [|apply (Hfin (centred o))].
    + cbn. intros _ w'. tauto.
    + cbn. apply list_lookup_insert_eq.
      rewrite length_insert, !length_map, length_insert. exact Hlt.
    + unfold centred. cbn. exact Hs1.
  - apply wp_bind. unfold truediv. rewrite Hmd. apply wp_ret.
    apply (wp_set_object i (centred o)).
    { cbn. apply list_lookup_insert_eq.
      rewrite length_insert, !length_map, length_insert. exact Hlt. }
    eapply wp_weaken; [|apply (Hfin (set_scale (2.0 / md, 2.0 / md, 2.0 / md)%Q (centred o)))].
    + cbn. intros _ w'. tauto.
    + cbn. apply list_lookup_insert_eq.
      rewrite !length_insert, !length_map, length_insert. exact Hlt.
    + unfold centred. cbn. exact Hs1.
Qed.

(** [_auto_adjust_camera] returns when the object and the camera are
    there; it sets the ortho scale from the measured box and moves the
    object by the centre of that box. *)
Lemma auto_adjust_camera_wp (i : nat) (o : Object) (c : Camera) (w : World) :
  objects (bpy w) !! i = Some o ->
  camera (bpy w) = Some c ->
  wp (_auto_adjust_camera i)
     (fun _ w' =>
        objects (bpy w') !! i = Some (recentred o) /\
        camera (bpy w') =
          Some {| cam_type := cam_type c; cam_location := cam_location c;
                  cam_rotation := cam_rotation c;
                  ortho_scale := (corner_extent o * 1.2)%Q;
                  cam_select := cam_select c |} /\
        lights (bpy w') = lights (bpy w) /\
        render (bpy w') = render (bpy w) /\
        fs w' = fs w /\ stdout w' = stdout w /\ cpus w' = cpus w) w.
Proof.
  intros Hi Hc. pose proof (lookup_lt_Some _ _ _ Hi) as Hlt.
  unfold _auto_adjust_camera.
  apply wp_bind, (wp_get_object i o); [exact Hi|].
  unfold recentred, corner_extent, corner_box.
  destruct (zip_star (map (matrix_world o) (bound_box o))) as [[xs ys] zs].
  apply wp_bind, (wp_set_camera _ c); [exact Hc|].
  apply (wp_set_object i o); [exact Hi|].
  cbn. rewrite list_lookup_insert_eq by exact Hlt. repeat split.
Qed.

(** ** C1: the normaliser *)



(** ** C2: degenerate meshes *)

Lemma Forall2_veq_map (f : vec3 -> vec3) (l : list vec3) :
  (forall p, veq (f p) p) -> Forall2 veq (map f l) l.
Proof.
  intros Hf. induction l as [|p l IH]; simpl; constructor; auto.
Qed.

(** A mesh with zero extent has vertices. *)
Lemma zero_extent_data (o : Object) :
  (world_extent o == 0)%Q -> data o <> [].
Proof.
  intros HE Hd. unfold world_extent, world_vertices in HE.
  rewrite Hd in HE. vm_compute in HE. discriminate.
Qed.

(** C2.  For every mesh whose largest bounding-box extent is zero,
    [_reset_model_transform] returns normally (so no division by zero
    is raised), the object's scale is the identity afterwards, and its
    vertices are the centred ones: no scale factor was applied. *)
Theorem degenerate_mesh_keeps_unit_scale (w : World) (obj : nat) (o : Object) :
  objects (bpy w) !! obj = Some o ->
  (world_extent o == 0)%Q ->
  exists w' o',
    _reset_model_transform obj w = (Ok tt, w') /\
    objects (bpy w') !! obj = Some o' /\
    scale o' = vone /\
    Forall2 veq (data o') (data (centred o)).
Proof.
  intros Hi HE.
  pose proof (zero_extent_data o HE) as Hd.
  pose proof (reset_model_transform_wp obj o w Hi) as H.
  apply wp_run in H. destruct H as ([] & w' & Hrun & Hobj & _).
  exists w', (normalized o). split; [exact Hrun|]. split; [exact Hobj|].
  split; [apply normalized_fields|].
  unfold normalized.
  replace (Qeq_bool (max3 (dimensions (centred o))) 0) with true.
  2:{ symmetry. apply Qeq_bool_iff. rewrite centred_max_dim by exact Hd.
      exact HE. }
  cbn [negb]. unfold transform_apply_obj. cbn [data].
  destruct (centred_fields o) as (_ & _ & -> & _).
  apply Forall2_veq_map. intros [[px py_] pz]. simpl. repeat split; ring.
Qed.

Lemma degenerate_mesh_keeps_unit_scale_witness :
  exists w' o',
    _reset_model_transform 0 (Example.world_of Example.point_mesh)
      = (Ok tt, w') /\
    objects (bpy w') !! 0%nat = Some o' /\
    scale o' = vone /\
    Forall2 veq (data o') (data (centred Example.point_mesh)).
Proof.
  apply (degenerate_mesh_keeps_unit_scale
           (Example.world_of Example.point_mesh) 0 Example.point_mesh).
  - reflexivity.
  - vm_compute. reflexivity.
Defined.

(** The only exception [_reset_model_transform] can raise, for any mesh
    whatever, is the one for a reference to a removed object: the
    division is guarded. *)
Lemma reset_model_transform_raises (w w' : World) (obj : nat) (e : exn) :
  _reset_model_transform obj w = (Raise e, w') ->
  e = ReferenceError "object has been removed".
Proof.
  destruct (objects (bpy w) !! obj) as [o|] eqn:Hi.
  - pose proof (reset_model_transform_wp obj o w Hi) as H.
    unfold wp in H. intros Hr. rewrite Hr in H. contradiction.
  - unfold _reset_model_transform, bind, set_active, modify_bpy, set_object,
      get_object, bind, get_bpy, put_bpy. cbn. rewrite Hi.
    intros H. inversion H. reflexivity.
Qed.

(** ** C7: the ortho scale *)

Section OrthoScale.

Local Open Scope Q_scope.

Lemma bound_box_not_nil (o : Object) : bound_box o <> [].
Proof.
  unfold bound_box.
  destruct (minmax (data o)) as [[[x0 y0] z0] [[x1 y1] z1]]. discriminate.
Qed.

(** Multiplying the scale of an object by [k >= 0] multiplies the
    extent that [_auto_adjust_camera] measures by [k]. *)
Lemma corner_extent_enlarged (k : Q) (o : Object) :
  0 <= k -> corner_extent (enlarged k o) == k * corner_extent o.
Proof.
  intros Hk. unfold corner_extent, corner_box, zip_star.
  change (bound_box (enlarged k o)) with (bound_box o).
  rewrite !map_map.
  pose proof (bound_box_not_nil o) as Hne.
  destruct (location o) as [[tx ty] tz] eqn:Hl.
  assert (Hx : forall p, (matrix_world (enlarged k o) p).1.1
                 == k * (matrix_world o p).1.1 + (1 - k) * tx).
  { intros [[px py_] pz]. unfold matrix_world, enlarged. cbn [location rotation scale set_scale].
    rewrite Hl. destruct (rotation o) as [[[[a b] c] [[d e] f]] [[g h] i]].
    destruct (scale o) as [[sx sy] sz]. simpl. ring. }
  assert (Hy : forall p, (matrix_world (enlarged k o) p).1.2
                 == k * (matrix_world o p).1.2 + (1 - k) * ty).
  { intros [[px py_] pz]. unfold matrix_world, enlarged. cbn [location rotation scale set_scale].
    rewrite Hl. destruct (rotation o) as [[[[a b] c] [[d e] f]] [[g h] i]].
    destruct (scale o) as [[sx sy] sz]. simpl. ring. }
  assert (Hz : forall p, (matrix_world (enlarged k o) p).2
                 == k * (matrix_world o p).2 + (1 - k) * tz).
  { intros [[px py_] pz]. unfold matrix_world, enlarged. cbn [location rotation scale set_scale].
    rewrite Hl. destruct (rotation o) as [[[[a b] c] [[d e] f]] [[g h] i]].
    destruct (scale o) as [[sx sy] sz]. simpl. ring. }
  pose proof (py_min_affine _ _ k _ (bound_box o) Hne Hk Hx) as Hx0.
  pose proof (py_max_affine _ _ k _ (bound_box o) Hne Hk Hx) as Hx1.
  pose proof (py_min_affine _ _ k _ (bound_box o) Hne Hk Hy) as Hy0.
  pose proof (py_max_affine _ _ k _ (bound_box o) Hne Hk Hy) as Hy1.
  pose proof (py_min_affine _ _ k _ (bound_box o) Hne Hk Hz) as Hz0.
  pose proof (py_max_affine _ _ k _ (bound_box o) Hne Hk Hz) as Hz1.
  cbn [vsub]. rewrite <- max3_scale by exact Hk.
  apply max3_compat; lra.
Qed.

(** For an object without rotation and with unit scale, as the
    normaliser leaves it, the measured extent is the extent of the mesh
    in world space. *)
Lemma corner_extent_normal_form (o : Object) :
  rotation o = mat_id -> scale o = vone -> data o <> [] ->
  corner_extent o == world_extent o.
Proof.
  intros Hr Hs Hd.
  destruct (corner_box_normal_form o _ eq_refl Hr Hs) as [Hk1 Hk2].
  destruct (world_box_normal_form o _ eq_refl Hr Hs Hd) as [Hw1 Hw2].
  unfold corner_extent, world_extent.
  destruct (corner_box o) as [[[kx0 ky0] kz0] [[kx1 ky1] kz1]].
  destruct (minmax (world_vertices o)) as [[[wx0 wy0] wz0] [[wx1 wy1] wz1]].
  destruct (minmax (data o)) as [[[x0 y0] z0] [[x1 y1] z1]].
  destruct (location o) as [[tx ty] tz].
  simpl in *. apply max3_compat; lra.
Qed.

End OrthoScale.

(** C7.  [_auto_adjust_camera] sets the ortho scale to the largest
    extent of the box it measures times 1.2; for an object as the
    normaliser leaves it (no rotation, unit scale) that extent is the
    largest bounding-box extent of the mesh; and on an object twice as
    large the ortho scale is twice as large. *)
Theorem ortho_scale_margin_and_linear
    (w1 w2 : World) (obj : nat) (o : Object) (c1 c2 : Camera) :
  objects (bpy w1) !! obj = Some o ->
  camera (bpy w1) = Some c1 ->
  objects (bpy w2) !! obj = Some (enlarged 2 o) ->
  camera (bpy w2) = Some c2 ->
  exists w1' w2' c1' c2',
    _auto_adjust_camera obj w1 = (Ok tt, w1') /\
    _auto_adjust_camera obj w2 = (Ok tt, w2') /\
    camera (bpy w1') = Some c1' /\
    camera (bpy w2') = Some c2' /\
    (ortho_scale c1' == corner_extent o * 1.2)%Q /\
    (rotation o = mat_id -> scale o = vone -> data o <> [] ->
       ortho_scale c1' == world_extent o * 1.2)%Q /\
    (ortho_scale c2' == 2 * ortho_scale c1')%Q.
Proof.
  intros Ho1 Hc1 Ho2 Hc2.
  pose proof (auto_adjust_camera_wp obj o c1 w1 Ho1 Hc1) as H1.
  pose proof (auto_adjust_camera_wp obj _ c2 w2 Ho2 Hc2) as H2.
  apply wp_run in H1, H2.
  destruct H1 as ([] & w1' & Hr1 & _ & Hcam1 & _).
  destruct H2 as ([] & w2' & Hr2 & _ & Hcam2 & _).
  eexists w1', w2', _, _.
  split; [exact Hr1|]. split; [exact Hr2|].
  split; [exact Hcam1|]. split; [exact Hcam2|].
  cbn [ortho_scale]. split; [reflexivity|]. split.
  - intros Hr Hs Hd. rewrite (corner_extent_normal_form o Hr Hs Hd).
    reflexivity.
  - rewrite corner_extent_enlarged by (vm_compute; discriminate). ring.
Qed.

Lemma ortho_scale_margin_and_linear_witness :
  exists w1' w2' c1' c2',
    _auto_adjust_camera 0 (Example.world_of Example.mesh) = (Ok tt, w1') /\
    _auto_adjust_camera 0 (Example.world_of (enlarged 2 Example.mesh))
      = (Ok tt, w2') /\
    camera (bpy w1') = Some c1' /\
    camera (bpy w2') = Some c2' /\
    (ortho_scale c1' == corner_extent Example.mesh * 1.2)%Q /\
    (rotation Example.mesh = mat_id -> scale Example.mesh = vone ->
     data Example.mesh <> [] ->
       ortho_scale c1' == world_extent Example.mesh * 1.2)%Q /\
    (ortho_scale c2' == 2 * ortho_scale c1')%Q.
Proof.
  apply (ortho_scale_margin_and_linear
           (Example.world_of Example.mesh)
           (Example.world_of (enlarged 2 Example.mesh))
           0 Example.mesh default_camera default_camera); reflexivity.
Defined.

(** ** Rendering the views *)

Lemma wp_print (line : string) (post : unit -> World -> Prop) w :
  post tt {| fs := fs w; stdout := stdout w ++ [line]; bpy := bpy w;
             cpus := cpus w |} ->
  wp (print line) post w.
Proof. intros H. exact H. Qed.

Lemma shot_shot (dir : string) (s : Scene) (v1 v2 : view) :
  shot dir (shot dir s v1) v2 = shot dir s v2.
Proof.
  unfold shot. cbn. destruct (camera s); reflexivity.
Qed.

Lemma write_views_shot (dir : string) (s : Scene) (v : view) (vs : list view) :
  forall f, write_views dir (shot dir s v) vs f = write_views dir s vs f.
Proof.
  unfold write_views. induction vs as [|v' vs IH]; intros f; simpl.
  - reflexivity.
  - rewrite shot_shot. apply IH.
Qed.

Lemma fold_shot_shot (dir : string) (s : Scene) (v : view) (vs : list view) :
  fold_left (shot dir) vs (shot dir s v) = fold_left (shot dir) (v :: vs) s.
Proof. reflexivity. Qed.

(** One view: with a camera in the scene and no directory in the way,
    [render_view] writes the picture of the scene in the pose of the
    view and prints its line. *)
Lemma render_view_wp (self : ThreeViewRenderer) (v : view) (w : World) :
  camera (bpy w) <> None ->
  fs w !! view_path (output_dir self) v <> Some Dir ->
  wp (render_view self v.1 v.2.1 v.2.2)
     (fun _ w' =>
        bpy w' = shot (output_dir self) (bpy w) v /\
        fs w' = <[view_path (output_dir self) v :=
                    File (Png (shot (output_dir self) (bpy w) v))]> (fs w) /\
        stdout w' = stdout w ++ [view_line (output_dir self) v] /\
        cpus w' = cpus w) w.
Proof.
  intros Hc Hd. destruct (camera (bpy w)) as [c|] eqn:Hcam; [|congruence].
  unfold render_view, _set_camera_position.
  apply wp_bind, wp_bind, (wp_set_camera _ c); [exact Hcam|].
  eapply wp_set_camera; [reflexivity|].
  apply wp_bind, wp_modify_bpy.
  apply wp_bind.
  unfold wp at 1, render_render, bind, get_bpy, get_fs, put_fs. cbn.
  fold (view_path (output_dir self) v).
  assert (Hshot : shot (output_dir self) (bpy w) v =
    {| objects := objects (bpy w); lights := lights (bpy w);
       camera := Some (pose v c); active := active (bpy w);
       render := {| resolution_x := resolution_x (render (bpy w));
                    resolution_y := resolution_y (render (bpy w));
                    resolution_percentage := resolution_percentage (render (bpy w));
                    file_format := file_format (render (bpy w));
                    color_mode := color_mode (render (bpy w));
                    filepath := view_path (output_dir self) v |} |}).
  { unfold shot. rewrite Hcam. reflexivity. }
  destruct (fs w !! view_path (output_dir self) v) as [[|ct]|] eqn:Hp;
    [congruence| |];
    rewrite Hshot; unfold with_render; cbn; repeat split.
Qed.

(** A loop over views. *)
Lemma render_views_wp (self : ThreeViewRenderer) (vs : list view) :
  forall w,
  camera (bpy w) <> None ->
  (forall v, In v vs -> fs w !! view_path (output_dir self) v <> Some Dir) ->
  wp (for_each vs (fun '(view_name, (position, rotation)) =>
                     render_view self view_name position rotation))
     (fun _ w' =>
        bpy w' = fold_left (shot (output_dir self)) vs (bpy w) /\
        fs w' = write_views (output_dir self) (bpy w) vs (fs w) /\
        stdout w' = stdout w ++ map (view_line (output_dir self)) vs /\
        cpus w' = cpus w) w.
Proof.
  induction vs as [|v vs IH]; intros w Hc Hd.
  - apply wp_ret. cbn. rewrite app_nil_r. repeat split.
  - cbn [for_each]. apply wp_bind.
    assert (Hv : (let '(view_name, (position, rotation)) := v in
                  render_view self view_name position rotation)
                 = render_view self v.1 v.2.1 v.2.2)
      by (destruct v as [n [p r]]; reflexivity).
    rewrite Hv.
    eapply wp_weaken; [|apply (render_view_wp self v w Hc)].
    2:{ apply Hd. left. reflexivity. }
    cbn beta. intros _ w1 (Hb & Hf & Hs & Hn).
    eapply wp_weaken; [|apply (IH w1)].
    + cbn beta. intros _ w2 (Hb2 & Hf2 & Hs2 & Hn2).
      rewrite Hb2, Hf2, Hs2, Hn2, Hb, Hf, Hs, Hn.
      rewrite write_views_shot. cbn [map fold_left write_views].
      rewrite <- app_assoc. repeat split.
    + rewrite Hb. unfold shot. cbn.
      destruct (camera (bpy w)); [discriminate | congruence].
    + intros v' Hv'. rewrite Hf.
      destruct (decide (view_path (output_dir self) v
                        = view_path (output_dir self) v')) as [<-|Hne].
      * rewrite lookup_insert_eq. discriminate.
      * rewrite lookup_insert_ne by exact Hne. apply Hd. right. exact Hv'.
Qed.

Lemma camera_fold_shot (dir : string) (vs : list view) :
  forall s, camera s <> None -> camera (fold_left (shot dir) vs s) <> None.
Proof.
  induction vs as [|v vs IH]; intros s Hs; simpl; [exact Hs|].
  apply IH. unfold shot. cbn. destruct (camera s); [discriminate|congruence].
Qed.

Lemma write_views_fold_shot (dir : string) (vs vs' : list view) :
  forall s f,
  write_views dir (fold_left (shot dir) vs s) vs' f = write_views dir s vs' f.
Proof.
  induction vs as [|v vs IH]; intros s f; simpl; [reflexivity|].
  rewrite IH. apply write_views_shot.
Qed.

Lemma write_views_not_dir (dir : string) (s : Scene) (vs : list view) (p : string) :
  forall f, f !! p <> Some Dir -> write_views dir s vs f !! p <> Some Dir.
Proof.
  unfold write_views. induction vs as [|v vs IH]; intros f Hf; simpl;
    [exact Hf|].
  apply IH. destruct (decide (view_path dir v = p)) as [<-|Hne].
  - rewrite lookup_insert_eq. discriminate.
  - rewrite lookup_insert_ne by exact Hne. exact Hf.
Qed.

(** All ten views. *)
Lemma render_all_views_wp (self : ThreeViewRenderer) (w : World) :
  camera (bpy w) <> None ->
  (forall v, In v all_views ->
     fs w !! view_path (output_dir self) v <> Some Dir) ->
  wp (render_all_views self)
     (fun _ w' =>
        bpy w' = fold_left (shot (output_dir self)) all_views (bpy w) /\
        fs w' = write_views (output_dir self) (bpy w) all_views (fs w) /\
        stdout w' =
          stdout w ++
          [nl +:+ "正在渲染正交视图..."] ++
          map (view_line (output_dir self)) orthographic_views ++
          [nl +:+ "正在渲染等轴测视图..."] ++
          map (view_line (output_dir self)) iso_views /\
        cpus w' = cpus w) w.
Proof.
  intros Hc Hd. unfold render_all_views.
  apply wp_bind, wp_print.
  apply wp_bind.
  eapply wp_weaken; [|apply render_views_wp].
  - cbn beta. intros _ w1 (Hb & Hf & Hs & Hn).
    apply wp_bind, wp_print.
    eapply wp_weaken; [|apply render_views_wp].
    + cbn beta. intros _ w2 (Hb2 & Hf2 & Hs2 & Hn2).
      cbn [bpy fs stdout cpus] in *.
      rewrite Hb2, Hf2, Hs2, Hn2, Hb, Hf, Hs, Hn.
      rewrite write_views_fold_shot.
      unfold all_views, write_views. rewrite !fold_left_app.
      rewrite <- !app_assoc. repeat split.
    + cbn [bpy]. rewrite Hb. apply camera_fold_shot. exact Hc.
    + intros v Hv. cbn [fs]. rewrite Hf. apply write_views_not_dir.
      apply Hd. unfold all_views. apply in_or_app. right. exact Hv.
  - exact Hc.
  - intros v Hv. apply Hd. unfold all_views. apply in_or_app. left. exact Hv.
Qed.

(** ** Real-number bounds for the isometric pitch *)

Section Pitch.

Local Open Scope R_scope.

Lemma sqrt3_bounds : 1.73205 < sqrt 3 < 1.732051.
Proof.
  split.
  - rewrite <- (sqrt_square 1.73205) by lra. apply sqrt_lt_1; lra.
  - rewrite <- (sqrt_square 1.732051) by lra. apply sqrt_lt_1; lra.
Qed.

Lemma cos_atan_sqrt2 : cos (atan (sqrt 2)) = 1 / sqrt 3.
Proof.
  rewrite cos_atan. rewrite Rsqr_sqrt by lra.
  replace (1 + 2) with 3 by lra. reflexivity.
Qed.

Lemma atan_sqrt2_range : 0 < atan (sqrt 2) < PI / 2.
Proof.
  split.
  - rewrite <- atan_0. apply atan_increasing. apply sqrt_lt_R0. lra.
  - apply atan_bound.
Qed.

Lemma fact_6 : INR (fact 6) = 720.
Proof. rewrite INR_IZR_INZ. reflexivity. Qed.

Lemma fact_8 : INR (fact 8) = 40320.
Proof. rewrite INR_IZR_INZ. reflexivity. Qed.

Lemma cos_lower (a : R) :
  -2 <= a <= 2 ->
  1 - a^2 / 2 + a^4 / 24 - a^6 / 720 <= cos a.
Proof.
  intros Ha. destruct (pre_cos_bound a 1) as [H _]; [lra|lra|].
  unfold cos_approx, cos_term in H.
  change (2 * 1 + 1)%nat with 3%nat in H.
  cbn [sum_f_R0] in H.
  change (2 * 0)%nat with 0%nat in H. change (2 * 1)%nat with 2%nat in H.
  change (2 * 2)%nat with 4%nat in H. change (2 * 3)%nat with 6%nat in H.
  rewrite fact_6 in H.
  change (INR (fact 0)) with 1 in H.
  replace (INR (fact 2)) with 2 in H by (simpl; lra).
  replace (INR (fact 4)) with 24 in H by (simpl; lra).
  lra.
Qed.

Lemma cos_upper (a : R) :
  -2 <= a <= 2 ->
  cos a <= 1 - a^2 / 2 + a^4 / 24 - a^6 / 720 + a^8 / 40320.
Proof.
  intros Ha. destruct (pre_cos_bound a 1) as [_ H]; [lra|lra|].
  unfold cos_approx, cos_term in H.
  change (2 * (1 + 1))%nat with 4%nat in H.
  cbn [sum_f_R0] in H.
  change (2 * 0)%nat with 0%nat in H. change (2 * 1)%nat with 2%nat in H.
  change (2 * 2)%nat with 4%nat in H. change (2 * 3)%nat with 6%nat in H.
  change (2 * 4)%nat with 8%nat in H.
  rewrite fact_6, fact_8 in H.
  change (INR (fact 0)) with 1 in H.
  replace (INR (fact 2)) with 2 in H by (simpl; lra).
  replace (INR (fact 4)) with 24 in H by (simpl; lra).
  lra.
Qed.

Lemma PI_bounds : 3.1415 < PI < 3.1416.
Proof.
  destruct (PI_2_3_7_ineq 3) as [Hlo Hup].
  unfold PI_2_3_7_tg, tg_alt, Ratan_seq in Hlo, Hup.
  cbn [sum_f_R0 Nat.mul Nat.add] in Hlo, Hup.
  simpl in Hlo, Hup.
  split; lra.
Qed.

Lemma inv_sqrt3_bounds : 0.57735 < 1 / sqrt 3 < 0.577351.
Proof.
  pose proof sqrt3_bounds as [Hs1 Hs2].
  assert (Hr : 1 / sqrt 3 * sqrt 3 = 1) by (field; lra).
  set (r := 1 / sqrt 3) in *. set (s := sqrt 3) in *.
  split; nra.
Qed.

Lemma atan_sqrt2_bounds : 0.95528 < atan (sqrt 2) < 0.95533.
Proof.
  pose proof atan_sqrt2_range as [Hpos Hhalf].
  pose proof PI_bounds as [Hpi1 Hpi2].
  pose proof inv_sqrt3_bounds as [Hs1 Hs2].
  pose proof cos_atan_sqrt2 as Hcos.
  split.
  - apply cos_decreasing_0; try lra.
    rewrite Hcos.
    apply Rlt_le_trans with (2 := cos_lower 0.95528 ltac:(lra)). lra.
  - apply cos_decreasing_0; try lra.
    rewrite Hcos.
    apply Rle_lt_trans with (1 := cos_upper 0.95533 ltac:(lra)). lra.
Qed.

(** The pitch of the isometric views, [radians(54.736)], agrees with
    [atan (sqrt 2)] to four decimal places and better. *)
Lemma iso_angle_close : Rabs (iso_angle - atan (sqrt 2)) < 5 / 100000.
Proof.
  pose proof atan_sqrt2_bounds as [H1 H2].
  pose proof PI_bounds as [Hpi1 Hpi2].
  unfold iso_angle, radians. apply Rabs_def1; lra.
Qed.

(** It is far from [atan (1 / sqrt 2)], which is below [PI / 4]. *)
Lemma iso_angle_far : 16 / 100 < iso_angle - atan (1 / sqrt 2).
Proof.
  pose proof PI_bounds as [Hpi1 Hpi2].
  assert (H : atan (1 / sqrt 2) < PI / 4).
  { rewrite <- atan_1. apply atan_increasing.
    assert (Hs : 1 < sqrt 2)
      by (rewrite <- sqrt_1 at 1; apply sqrt_lt_1; lra).
    assert (Hr : 1 / sqrt 2 * sqrt 2 = 1) by (field; lra).
    set (r := 1 / sqrt 2) in *. set (s := sqrt 2) in *. nra. }
  unfold iso_angle, radians. lra.
Qed.

End Pitch.

(** ** Paths of the pictures *)

Lemma append_assoc (a b c : string) : (a +:+ b) +:+ c = a +:+ (b +:+ c).
Proof.
  induction a as [|x a IH]; [reflexivity|].
  change (String x ((a +:+ b) +:+ c) = String x (a +:+ (b +:+ c))).
  f_equal. exact IH.
Qed.

Lemma append_inj_l (p a b : string) : p +:+ a = p +:+ b -> a = b.
Proof.
  induction p as [|x p IH]; intros H; [exact H|].
  change (String x (p +:+ a) = String x (p +:+ b)) in H.
  injection H as H. auto.
Qed.

(** [os.path.join] with a second argument that is not absolute. *)
Lemma join_relative (dir b : string) :
  startswith "/" b = false -> join dir b = join_prefix dir +:+ b.
Proof.
  intros Hb. unfold join, join_prefix. rewrite Hb.
  destruct (String.eqb dir "" || endswith "/" dir); [reflexivity|].
  rewrite append_assoc. reflexivity.
Qed.

Lemma view_path_prefix (dir : string) (v : view) :
  In v all_views -> view_path dir v = join_prefix dir +:+ v.1 +:+ ".png".
Proof.
  intros Hv. unfold view_path. apply join_relative.
  unfold all_views in Hv. cbn in Hv.
  repeat (destruct Hv as [<-|Hv]; [reflexivity|]). contradiction.
Qed.


Lemma write_views_snoc (dir : string) (s : Scene) (vs : list view) (v : view) f :
  write_views dir s (vs ++ [v]) f =
  <[view_path dir v := File (Png (shot dir s v))]> (write_views dir s vs f).
Proof. unfold write_views. rewrite fold_left_app. reflexivity. Qed.


Lemma write_views_other (dir : string) (s : Scene) (vs : list view) f (p : string) :
  (forall v, In v vs -> view_path dir v <> p) ->
  write_views dir s vs f !! p = f !! p.
Proof.
  induction vs as [|x vs IH] using rev_ind; intros Hp; [reflexivity|].
  rewrite write_views_snoc, lookup_insert_ne.
  - apply IH. intros v Hv. apply Hp, in_or_app. left. exact Hv.
  - apply Hp, in_or_app. right. left. reflexivity.
Qed.



(** ** C3: the orthographic poses *)



(** ** C6: the order of the views *)



(** A run that fails has rendered the views before the failing one, in
    the same order: the log holds a prefix of the lines of a complete
    run. *)
Lemma render_view_log (self : ThreeViewRenderer) (v : view) (w : World) :
  match render_view self v.1 v.2.1 v.2.2 w with
  | (Ok _, w') => stdout w' = stdout w ++ [view_line (output_dir self) v]
  | (Raise _, w') => stdout w' = stdout w
  end.
Proof.
  unfold render_view, _set_camera_position, set_camera, render_render,
    modify_bpy, bind, get_bpy, put_bpy, get_fs, put_fs, print, raise.
  destruct (camera (bpy w)) as [c|]; cbn; [|reflexivity].
  destruct (fs w !! _) as [[|ct]|]; reflexivity.
Qed.

Lemma render_views_log (self : ThreeViewRenderer) (vs : list view) :
  forall w,
  exists k,
    stdout (for_each vs (fun '(view_name, (position, rotation)) =>
                           render_view self view_name position rotation) w).2
    = stdout w ++ map (view_line (output_dir self)) (take k vs).
Proof.
  induction vs as [|v vs IH]; intros w.
  - exists 0%nat. cbn. rewrite app_nil_r. reflexivity.
  - cbn [for_each]. unfold bind at 1.
    assert (Hv : (let '(view_name, (position, rotation)) := v in
                  render_view self view_name position rotation)
                 = render_view self v.1 v.2.1 v.2.2)
      by (destruct v as [n [p r]]; reflexivity).
    rewrite Hv. pose proof (render_view_log self v w) as H.
    destruct (render_view self v.1 v.2.1 v.2.2 w) as [[[]|e] w1].
    + destruct (IH w1) as [k Hk]. exists (S k).
      rewrite Hk, H. cbn [take map]. rewrite <- app_assoc. reflexivity.
    + exists 0%nat. cbn. rewrite app_nil_r. exact H.
Qed.

(** ** C4: the isometric poses *)

Lemma radians_inj (a b : R) : radians a = radians b -> a = b.
Proof.
  unfold radians. intros H. pose proof PI_RGT_0 as Hpi.
  assert (H' : (a * PI = b * PI)%R) by lra. nra.
Qed.

(** C4 as stated fails: the pitch [radians(54.736)] is not within four
    decimal places of [atan (1 / sqrt 2)], which is about 0.6155. *)
Lemma iso_pitch_is_not_atan_inv_sqrt2 :
  ~ (Rabs (iso_angle - atan (1 / sqrt 2)) < 1 / 10000)%R.
Proof.
  pose proof iso_angle_far as H. intros Habs.
  apply Rabs_def2 in Habs. lra.
Qed.

(** C4, amended.  The four isometric poses stand at the four sign
    combinations of (±15, ±15, 15); each has the pitch [radians(54.736)],
    which agrees with [atan (sqrt 2)] (about 0.955317) to four decimal
    places, and a roll of zero; their yaws are 45°, 225°, 315° and 135°,
    four different angles, so each of 45°, 135°, 225°, 315° is used
    exactly once. *)
Theorem isometric_poses :
  map (fun v : view => (v.1, v.2.1)) iso_views =
    [ ("standard", (15, -15, 15)%Z); ("iso_back", (-15, 15, 15)%Z);
      ("iso_left", (-15, -15, 15)%Z); ("iso_right", (15, 15, 15)%Z) ] /\
  (forall v : view, In v iso_views ->
     v.2.2.1.1 = iso_angle /\ v.2.2.1.2 = 0%R) /\
  iso_angle = radians 54.736 /\
  (Rabs (iso_angle - atan (sqrt 2)) < 5 / 100000)%R /\
  (Rabs (iso_angle - 0.955317) < 5 / 100000)%R /\
  map (fun v : view => v.2.2.2) iso_views =
    [radians 45; radians 225; radians 315; radians 135] /\
  Permutation (map (fun v : view => v.2.2.2) iso_views)
    [radians 45; radians 135; radians 225; radians 315] /\
  NoDup (map (fun v : view => v.2.2.2) iso_views).
Proof.
  split; [reflexivity|]. split.
  { intros v Hv. cbn in Hv.
    repeat (destruct Hv as [<-|Hv]; [split; reflexivity|]). contradiction. }
  split; [reflexivity|]. split; [exact iso_angle_close|]. split.
  { pose proof PI_bounds as [H1 H2]. unfold iso_angle, radians.
    apply Rabs_def1; lra. }
  split; [reflexivity|]. split.
  { cbn [map iso_views]. cbn.
    apply perm_skip. 
    apply Permutation_trans with [radians 225; radians 135; radians 315].
    - apply perm_skip, perm_swap.
    - apply perm_swap. }
  cbn [map iso_views]. cbn.
  repeat constructor; intros H; apply list_elem_of_In in H; cbn in H;
    repeat (destruct H as [H|H]; [apply radians_inj in H; lra|]);
    contradiction.
Qed.

(** ** File names *)

Section FileNames.

Local Open Scope Z_scope.

Lemma append_cons (x : ascii) (a b : string) :
  String x a +:+ b = String x (a +:+ b).
Proof. reflexivity. Qed.

Lemma length_append (a b : string) :
  String.length (a +:+ b) = (String.length a + String.length b)%nat.
Proof.
  induction a as [|x a IH]; [reflexivity|].
  rewrite append_cons. simpl. rewrite IH. reflexivity.
Qed.

Lemma rfind_range (c : ascii) (s : string) :
  -1 <= rfind c s < Z.of_nat (String.length s).
Proof.
  induction s as [|x s IH]; simpl; [lia|].
  destruct (0 <=? rfind c s) eqn:H; [lia|].
  destruct (Ascii.eqb x c); lia.
Qed.

(** The last occurrence in a concatenation. *)
Lemma rfind_append (c : ascii) (a b : string) :
  rfind c (a +:+ b) =
  if 0 <=? rfind c b then Z.of_nat (String.length a) + rfind c b
  else rfind c a.
Proof.
  induction a as [|x a IH].
  - change ("" +:+ b) with b. cbn [String.length rfind].
    pose proof (rfind_range c b) as Hr.
    destruct (0 <=? rfind c b) eqn:H; [lia|]. apply Z.leb_gt in H. lia.
  - rewrite append_cons. cbn [rfind String.length]. rewrite IH.
    destruct (0 <=? rfind c b) eqn:H.
    + replace (0 <=? Z.of_nat (String.length a) + rfind c b) with true
        by (symmetry; apply Z.leb_le; lia).
      lia.
    + reflexivity.
Qed.

Lemma slice_from_append (n : nat) (a b : string) :
  (n <= String.length a)%nat ->
  slice_from n (a +:+ b) = slice_from n a +:+ b.
Proof.
  revert a. induction n as [|n IH]; intros a Hn; [reflexivity|].
  destruct a as [|x a]; simpl in Hn; [lia|].
  rewrite append_cons. simpl. apply IH. lia.
Qed.

Lemma slice_from_length (a b : string) :
  slice_from (String.length a) (a +:+ b) = b.
Proof. induction a as [|x a IH]; [reflexivity|]. exact IH. Qed.

Lemma slice_to_length (a b : string) :
  slice_to (String.length a) (a +:+ b) = a.
Proof.
  induction a as [|x a IH]; [reflexivity|].
  rewrite append_cons. simpl. rewrite IH. reflexivity.
Qed.

Lemma basename_cons (x : ascii) (s : string) :
  basename (String x s) =
  if 0 <=? rfind "/" s then basename s
  else if Ascii.eqb x "/" then s else String x s.
Proof.
  unfold basename. cbn [rfind].
  pose proof (rfind_range "/" s) as Hr.
  destruct (0 <=? rfind "/" s) eqn:H.
  - apply Z.leb_le in H.
    replace (Z.to_nat (rfind "/" s + 1 + 1)) with (S (Z.to_nat (rfind "/" s + 1)))
      by lia.
    reflexivity.
  - destruct (Ascii.eqb x "/"); reflexivity.
Qed.

Lemma basename_no_slash (s : string) : rfind "/" s = -1 -> basename s = s.
Proof. unfold basename. intros ->. reflexivity. Qed.

(** The base name holds no slash. *)
Lemma rfind_basename (s : string) : rfind "/" (basename s) = -1.
Proof.
  induction s as [|x s IH]; [reflexivity|].
  rewrite basename_cons. pose proof (rfind_range "/" s) as Hr.
  destruct (0 <=? rfind "/" s) eqn:H; [exact IH|].
  apply Z.leb_gt in H.
  destruct (Ascii.eqb x "/") eqn:Hx; [lia|].
  cbn [rfind]. replace (0 <=? rfind "/" s) with false
    by (symmetry; apply Z.leb_gt; lia).
  rewrite Hx. reflexivity.
Qed.

(** The base name of [a/b] is that of [b]. *)
Lemma basename_after_slash (a b : string) :
  basename (a +:+ "/" +:+ b) = basename b.
Proof.
  induction a as [|x a IH].
  - change ("" +:+ "/" +:+ b) with (String "/" b). rewrite basename_cons.
    destruct (0 <=? rfind "/" b) eqn:H; [reflexivity|].
    cbn. symmetry. apply basename_no_slash.
    apply Z.leb_gt in H. pose proof (rfind_range "/" b). lia.
  - rewrite append_cons, basename_cons.
    replace (0 <=? rfind "/" (a +:+ "/" +:+ b)) with true; [exact IH|].
    symmetry. apply Z.leb_le. rewrite rfind_append.
    pose proof (rfind_range "/" b) as Hb.
    change ("/" +:+ b) with (String "/" b). cbn [rfind].
    destruct (0 <=? rfind "/" b) eqn:H.
    + apply Z.leb_le in H.
      replace (0 <=? rfind "/" b + 1) with true by (symmetry; apply Z.leb_le; lia).
      lia.
    + cbn. lia.
Qed.

Lemma basename_append_ext (r : string) :
  basename (r +:+ ".obj") = basename r +:+ ".obj".
Proof.
  unfold basename. rewrite rfind_append.
  change (0 <=? rfind "/" ".obj") with false. cbn iota.
  apply slice_from_append. pose proof (rfind_range "/" r). lia.
Qed.

Lemma endswith_append (suf s : string) :
  endswith suf s = true -> exists q, s = q +:+ suf.
Proof.
  induction s as [|x s IH]; cbn [endswith]; intros H.
  - rewrite orb_false_r in H. apply String.eqb_eq in H. exists "". auto.
  - apply orb_true_iff in H. destruct H as [H|H].
    + apply String.eqb_eq in H. exists "". auto.
    + destruct (IH H) as [q ->]. exists (String x q). reflexivity.
Qed.

Lemma endswith_append_true (suf a : string) : endswith suf (a +:+ suf) = true.
Proof.
  induction a as [|x a IH].
  - change ("" +:+ suf) with suf.
    destruct suf; cbn [endswith]; rewrite ?String.eqb_refl; reflexivity.
  - rewrite append_cons. cbn [endswith]. rewrite IH. apply orb_true_r.
Qed.

Lemma strip_suffix_append (suf a : string) :
  strip_suffix suf (a +:+ suf) = Some a.
Proof.
  unfold strip_suffix. rewrite endswith_append_true, length_append.
  replace (String.length a + String.length suf - String.length suf)%nat
    with (String.length a) by lia.
  rewrite slice_to_length. reflexivity.
Qed.

Lemma prefix_append (p s : string) :
  String.prefix p s = true -> s = p +:+ slice_from (String.length p) s.
Proof.
  revert s. induction p as [|x p IH]; intros s H; [reflexivity|].
  destruct s as [|y s]; [discriminate|]. cbn in H.
  destruct (ascii_dec x y) as [->|]; [|discriminate].
  rewrite append_cons. cbn [String.length slice_from]. f_equal. auto.
Qed.

End FileNames.

(** ** Discovered files *)

Section Discovered.

Local Open Scope Z_scope.

Lemma join_prefix_shape (d : string) :
  join_prefix d = "" \/ exists q, join_prefix d = q +:+ "/".
Proof.
  unfold join_prefix. destruct (String.eqb d "") eqn:He.
  - apply String.eqb_eq in He. subst d. left. reflexivity.
  - cbn [orb]. destruct (endswith "/" d) eqn:Hs.
    + right. apply endswith_append. exact Hs.
    + right. exists d. reflexivity.
Qed.

Lemma startswith_char (c x : ascii) (s : string) :
  startswith (String c "") (String x s) = Ascii.eqb x c.
Proof.
  unfold startswith. cbn [String.prefix].
  destruct (ascii_dec c x) as [<-|Hn].
  - rewrite Ascii.eqb_refl. destruct s; reflexivity.
  - symmetry. apply Ascii.eqb_neq. congruence.
Qed.

(** The last component of a path without empty or hidden components is
    neither empty nor hidden. *)
Lemma visible_basename (s : string) :
  forall b : bool,
  glob.visible s b = true -> b = true \/ 0 <= rfind "/" s ->
  basename s <> "" /\ startswith "." (basename s) = false.
Proof.
  induction s as [|x s IH]; intros b Hv Hb.
  - cbn in Hv. destruct Hb as [->|Hb]; [discriminate|]. cbn in Hb. lia.
  - rewrite basename_cons. cbn [glob.visible] in Hv.
    pose proof (rfind_range "/" s) as Hr.
    destruct (Ascii.eqb x "/") eqn:Hx.
    + apply andb_true_iff in Hv. destruct Hv as [_ Hv].
      destruct (0 <=? rfind "/" s) eqn:Hs.
      * apply (IH true Hv). left. reflexivity.
      * rewrite <- (basename_no_slash s) by (apply Z.leb_gt in Hs; lia).
        apply (IH true Hv). left. reflexivity.
    + destruct (0 <=? rfind "/" s) eqn:Hs.
      * destruct (b && Ascii.eqb x "."); [discriminate|].
        apply (IH false Hv). right. apply Z.leb_le. exact Hs.
      * destruct Hb as [->|Hb].
        -- cbn [andb] in Hv. destruct (Ascii.eqb x ".") eqn:Hd; [discriminate|].
           split; [discriminate|]. rewrite startswith_char. exact Hd.
        -- cbn [rfind] in Hb. rewrite Hs, Hx in Hb. lia.
Qed.

(** [splitext] takes [.obj] off a plain visible name. *)
Lemma splitext_obj (stem : string) :
  stem <> "" -> rfind "/" stem = -1 -> startswith "." stem = false ->
  splitext (stem +:+ ".obj") = (stem, ".obj").
Proof.
  intros Hne Hs Hd. unfold splitext. rewrite !rfind_append.
  change (0 <=? rfind "/" ".obj") with false.
  change (0 <=? rfind "." ".obj") with true. cbn iota. rewrite Hs.
  change (rfind "." ".obj") with 0.
  replace (-1 <? Z.of_nat (String.length stem) + 0) with true
    by (symmetry; apply Z.ltb_lt; lia).
  destruct stem as [|x s]; [congruence|].
  replace (Z.to_nat (Z.of_nat (String.length (String x s)) + 0 - (-1 + 1)))
    with (S (String.length s)) by (cbn [String.length]; lia).
  replace (Z.to_nat (Z.of_nat (String.length (String x s)) + 0))
    with (String.length (String x s)) by lia.
  cbn [splitext_scan].
  change (Z.to_nat (-1 + 1)) with 0%nat.
  rewrite append_cons. cbn [String.substring].
  assert (Hx : Ascii.eqb x "." = false).
  { rewrite startswith_char in Hd. exact Hd. }
  assert (He : String.eqb (String x (String.substring 0 0 (s +:+ ".obj"))) "." = false).
  { cbn. rewrite Hx. reflexivity. }
  rewrite He. cbn [negb].
  rewrite <- append_cons, slice_to_length, slice_from_length. reflexivity.
Qed.

(** A path found by the search below [d] has a base name [stem.obj]
    with a plain, visible, non-empty [stem], which is what [splitext]
    leaves of it. *)
Lemma matches_stem (d p : string) :
  glob.matches (join_prefix d) p = true ->
  exists stem,
    basename p = stem +:+ ".obj" /\
    (splitext (basename p)).1 = stem /\
    stem <> "" /\ rfind "/" stem = -1 /\ startswith "." stem = false.
Proof.
  unfold glob.matches. intros H.
  apply andb_true_iff in H. destruct H as [Hpre H].
  apply andb_true_iff in H. destruct H as [Hvis Hend].
  apply prefix_append in Hpre.
  set (rel := slice_from (String.length (join_prefix d)) p) in *.
  assert (Hbase : basename p = basename rel).
  { rewrite Hpre. destruct (join_prefix_shape d) as [->|[q ->]].
    - reflexivity.
    - rewrite append_assoc. apply basename_after_slash. }
  destruct (endswith_append _ _ Hend) as [r Hr].
  destruct (visible_basename rel true Hvis) as [Hne Hdot]; [left; reflexivity|].
  rewrite Hr, basename_append_ext in Hne, Hdot.
  rewrite Hbase, Hr, basename_append_ext.
  pose proof (rfind_basename r) as Hs.
  set (stem := basename r) in *.
  assert (Hstem : stem <> "") by (intros E; rewrite E in Hdot; discriminate).
  assert (Hd' : startswith "." stem = false).
  { destruct stem as [|x s]; [congruence|].
    rewrite append_cons in Hdot. rewrite startswith_char in *. exact Hdot. }
  exists stem. rewrite (splitext_obj stem Hstem Hs Hd'). auto.
Qed.

End Discovered.

(** Searching with the pattern the script builds. *)
Lemma glob_recursive_run (input_dir : string) (w : World) :
  glob.glob_recursive (join input_dir "**/*.obj") w =
  (Ok (List.filter (glob.matches (join_prefix input_dir))
         (map fst (map_to_list (fs w)))), w).
Proof.
  rewrite join_relative by reflexivity.
  unfold glob.glob_recursive. rewrite strip_suffix_append. reflexivity.
Qed.

(** ** Setting up the scene *)

Lemma filter_selected_nil (l : list Object) :
  List.filter (fun o => negb (select o)) (map (set_select true) l) = [].
Proof. induction l as [|o l IH]; [reflexivity | exact IH]. Qed.

Lemma filter_selected_lights_nil (l : list Light) :
  List.filter (fun x => negb (light_select x)) (map (set_light_select true) l) = [].
Proof. induction l as [|o l IH]; [reflexivity | exact IH]. Qed.

Lemma wp_set_light (i : nat) (l : Light) (f : Light -> Light)
    (post : unit -> World -> Prop) w :
  lights (bpy w) !! i = Some l ->
  post tt (with_bpy w {| objects := objects (bpy w);
                         lights := <[i := f l]> (lights (bpy w));
                         camera := camera (bpy w); active := active (bpy w);
                         render := render (bpy w) |}) ->
  wp (set_light (Some (LightRef i)) f) post w.
Proof.
  intros Hl H. unfold wp, set_light, bind, get_bpy. rewrite Hl. exact H.
Qed.



(** ** Exceptions that can leave a job *)

Section OnlyException.

Context {A B : Type}.

Lemma only_Exception_ret (a : A) : only_Exception (ret a).
Proof. intros w e w' H. discriminate H. Qed.

Lemma only_Exception_raise (e : exn) :
  is_Exception e = true -> only_Exception (@raise A e).
Proof. intros He w e' w' H. inversion H. subst. exact He. Qed.

Lemma only_Exception_bind (m : M A) (k : A -> M B) :
  only_Exception m -> (forall a, only_Exception (k a)) ->
  only_Exception (bind m k).
Proof.
  intros Hm Hk w e w' H. unfold bind in H.
  destruct (m w) as [[a|e1] w1] eqn:Hmw.
  - exact (Hk a w1 e w' H).
  - inversion H. subst. exact (Hm w e w' Hmw).
Qed.

Lemma only_Exception_if (c : bool) (m1 m2 : M A) :
  only_Exception m1 -> only_Exception m2 ->
  only_Exception (if c then m1 else m2).
Proof. destruct c; auto. Qed.

Lemma only_Exception_for_each (l : list A) (body : A -> M unit) :
  (forall x, only_Exception (body x)) -> only_Exception (for_each l body).
Proof.
  intros Hb. induction l as [|x l IH]; cbn [for_each].
  - intros w e w' H. discriminate H.
  - intros w e w' H. unfold bind in H.
    destruct (body x w) as [[[]|e1] w1] eqn:Hx.
    + exact (IH w1 e w' H).
    + inversion H. subst. exact (Hb x w e w' Hx).
Qed.

End OnlyException.

Create HintDb exc.
#[local] Hint Resolve only_Exception_ret only_Exception_bind only_Exception_if
  only_Exception_for_each : exc.

Lemma only_Exception_get_bpy : only_Exception get_bpy.
Proof. intros w e w' H. discriminate H. Qed.

Lemma only_Exception_get_fs : only_Exception get_fs.
Proof. intros w e w' H. discriminate H. Qed.

Lemma only_Exception_put_bpy (s : Scene) : only_Exception (put_bpy s).
Proof. intros w e w' H. discriminate H. Qed.

Lemma only_Exception_put_fs f : only_Exception (put_fs f).
Proof. intros w e w' H. discriminate H. Qed.

Lemma only_Exception_print (l : string) : only_Exception (print l).
Proof. intros w e w' H. discriminate H. Qed.

#[local] Hint Resolve only_Exception_get_bpy only_Exception_get_fs
  only_Exception_put_bpy only_Exception_put_fs only_Exception_print : exc.

Lemma only_Exception_modify_bpy f : only_Exception (modify_bpy f).
Proof. unfold modify_bpy. auto with exc. Qed.

Lemma only_Exception_get_object i : only_Exception (get_object i).
Proof.
  unfold get_object. apply only_Exception_bind; [auto with exc|].
  intros s. destruct (objects s !! i); [auto with exc|].
  apply only_Exception_raise. reflexivity.
Qed.

#[local] Hint Resolve only_Exception_modify_bpy only_Exception_get_object : exc.

Lemma only_Exception_set_object i f : only_Exception (set_object i f).
Proof. unfold set_object. auto with exc. Qed.

Lemma only_Exception_set_camera f : only_Exception (set_camera f).
Proof.
  unfold set_camera. apply only_Exception_bind; [auto with exc|].
  intros s. destruct (camera s); [auto with exc|].
  apply only_Exception_raise. reflexivity.
Qed.

Lemma only_Exception_set_light r f : only_Exception (set_light r f).
Proof.
  unfold set_light. apply only_Exception_bind; [auto with exc|].
  intros s. destruct r as [[i|i|]|]; try (apply only_Exception_raise; reflexivity).
  destruct (lights s !! i); [auto with exc|].
  apply only_Exception_raise. reflexivity.
Qed.

Lemma only_Exception_truediv a b : only_Exception (truediv a b).
Proof.
  unfold truediv. destruct (Qeq_bool b 0); [|auto with exc].
  apply only_Exception_raise. reflexivity.
Qed.

Lemma only_Exception_item0 {A} (l : list A) : only_Exception (item0 l).
Proof.
  destruct l; cbn [item0]; [|auto with exc].
  apply only_Exception_raise. reflexivity.
Qed.

Lemma only_Exception_import path : only_Exception (import_scene_obj path).
Proof.
  unfold import_scene_obj. apply only_Exception_bind; [auto with exc|].
  intros f. destruct (f !! path) as [[|c]|]; [| auto with exc |];
    apply only_Exception_raise; reflexivity.
Qed.

Lemma only_Exception_render_render : only_Exception render_render.
Proof.
  unfold render_render. apply only_Exception_bind; [auto with exc|].
  intros s. destruct (camera s); [|apply only_Exception_raise; reflexivity].
  apply only_Exception_bind; [auto with exc|].
  intros f. destruct (f !! filepath (render s)) as [[|ct]|]; [|auto with exc..].
  apply only_Exception_raise. reflexivity.
Qed.

Lemma only_Exception_makedirs name ok : only_Exception (os.makedirs name ok).
Proof.
  unfold os.makedirs. apply only_Exception_bind; [auto with exc|].
  intros f. destruct (f !! name) as [[|c]|]; [destruct ok| |];
    auto with exc; apply only_Exception_raise; reflexivity.
Qed.

#[local] Hint Resolve only_Exception_set_object only_Exception_set_camera
  only_Exception_set_light only_Exception_truediv only_Exception_item0
  only_Exception_import only_Exception_render_render
  only_Exception_makedirs : exc.

Lemma only_Exception_reset obj : only_Exception (_reset_model_transform obj).
Proof.
  unfold _reset_model_transform, set_active, object_transform_apply,
    object_origin_set.
  auto 20 with exc.
Qed.

Lemma only_Exception_sun rot e : only_Exception (_add_sun_light rot e).
Proof.
  unfold _add_sun_light, object_light_add, active_object. auto 20 with exc.
Qed.

Lemma only_Exception_adjust obj : only_Exception (_auto_adjust_camera obj).
Proof.
  unfold _auto_adjust_camera. apply only_Exception_bind; [auto with exc|].
  intros o. cbn [zip_star]. auto with exc.
Qed.

#[local] Hint Resolve only_Exception_reset only_Exception_sun
  only_Exception_adjust : exc.

Lemma only_Exception_setup self : only_Exception (_setup_scene self).
Proof.
  unfold _setup_scene, object_select_all, object_delete, selected_objects,
    new_scene_camera.
  auto 30 with exc.
Qed.

Lemma only_Exception_render_view self n p r :
  only_Exception (render_view self n p r).
Proof. unfold render_view, _set_camera_position. auto 20 with exc. Qed.

Lemma only_Exception_render_all self : only_Exception (render_all_views self).
Proof.
  unfold render_all_views.
  apply only_Exception_bind; [auto with exc|intros _].
  apply only_Exception_bind; [|intros _].
  { apply only_Exception_for_each. intros [n [p r]].
    apply only_Exception_render_view. }
  apply only_Exception_bind; [auto with exc|intros _].
  apply only_Exception_for_each. intros [n [p r]].
  apply only_Exception_render_view.
Qed.

(** Whatever goes wrong in the [try] block of a job is an [Exception]. *)
Lemma only_Exception_job_body args : only_Exception (job_body args).
Proof.
  destruct args as [[p out] res]. unfold job_body, __init__.
  pose proof only_Exception_setup. pose proof only_Exception_render_all.
  auto 20 with exc.
Qed.

(** ** One job *)


(** [process_single_model] always returns a line: the outcome of the
    [try] block turned into a Render Job Result. *)
Lemma process_single_model_run (args : string * string * Z) (w : World) :
  process_single_model args w =
  (Ok (line_of args (job_body args w).1), (job_body args w).2).
Proof.
  unfold process_single_model, try_except_Exception.
  pose proof (only_Exception_job_body args w) as He.
  destruct (job_body args w) as [[s|e] w']; [reflexivity|].
  rewrite (He e w' eq_refl). reflexivity.
Qed.



Section JobPaths.

Local Open Scope Z_scope.

Lemma no_slash_not_absolute (stem : string) :
  rfind "/" stem = -1 -> startswith "/" stem = false.
Proof.
  destruct stem as [|x s]; [reflexivity|]. intros H.
  rewrite startswith_char. cbn [rfind] in H.
  destruct (0 <=? rfind "/" s) eqn:Hs.
  - apply Z.leb_le in Hs. lia.
  - destruct (Ascii.eqb x "/"); [discriminate|reflexivity].
Qed.

(** A directory whose name ends in a plain non-empty component gets a
    slash when a name is joined to it. *)
Lemma join_prefix_dir (a stem : string) :
  stem <> "" -> rfind "/" stem = -1 ->
  join_prefix (a +:+ stem) = a +:+ stem +:+ "/".
Proof.
  intros Hne Hs. unfold join_prefix.
  replace (String.eqb (a +:+ stem) "") with false.
  2:{ symmetry. apply String.eqb_neq. intros E.
      apply (f_equal String.length) in E. rewrite length_append in E.
      destruct stem; [congruence|]. cbn in E. lia. }
  cbn [orb]. destruct (endswith "/" (a +:+ stem)) eqn:He.
  - exfalso. apply endswith_append in He. destruct He as [q Hq].
    pose proof (f_equal (rfind "/") Hq) as Hr.
    pose proof (f_equal String.length Hq) as Hl.
    rewrite !rfind_append, Hs in Hr. rewrite !length_append in Hl.
    change (0 <=? -1) with false in Hr. change (0 <=? rfind "/" "/") with true in Hr.
    cbn iota in Hr. change (rfind "/" "/") with 0 in Hr.
    pose proof (rfind_range "/" a).
    destruct stem; [congruence|]. cbn [String.length] in Hl. lia.
  - rewrite append_assoc. reflexivity.
Qed.

End JobPaths.

(** The output directory and the picture paths of a discovered file with
    stem [stem]. *)
Lemma model_output_dir_stem (out p stem : string) :
  (splitext (basename p)).1 = stem -> rfind "/" stem = (-1)%Z ->
  model_output_dir out p = join_prefix out +:+ stem.
Proof.
  intros Hst Hs. unfold model_output_dir. rewrite Hst.
  apply join_relative, no_slash_not_absolute, Hs.
Qed.

Lemma view_path_stem (out stem : string) (v : view) :
  stem <> "" -> rfind "/" stem = (-1)%Z -> In v all_views ->
  view_path (join_prefix out +:+ stem) v =
  join_prefix out +:+ stem +:+ "/" +:+ v.1 +:+ ".png".
Proof.
  intros Hne Hs Hv. rewrite (view_path_prefix _ v Hv).
  rewrite join_prefix_dir by assumption.
  rewrite !append_assoc. reflexivity.
Qed.

Lemma view_path_longer (dir : string) (v : view) :
  In v all_views -> view_path dir v <> dir.
Proof.
  intros Hv E. rewrite (view_path_prefix dir v Hv) in E.
  apply (f_equal String.length) in E. rewrite !length_append in E.
  assert (String.length dir <= String.length (join_prefix dir))%nat.
  { unfold join_prefix. destruct (_ || _); [lia|].
    rewrite length_append. lia. }
  cbn [String.length] in E. lia.
Qed.


(** ** The pool *)

Section PoolMap.

Context {A B : Type}.
Variable f : A -> M B.
Variable xs : list A.




End PoolMap.





(** Two kinds of job that do the same to the world, the second
    returning [g x b] where the first returns [b], run in step. *)
Section Lockstep.

Context {A B C : Type}.
Variable fA : A -> M B.
Variable fP : A -> M C.
Variable g : A -> B -> C.
Variable xs : list A.

Hypothesis HfP : forall x w, exists b w',
  fA x w = (Ok b, w') /\ fP x w = (Ok (g x b), w').





End Lockstep.

(** ** The batch *)

Lemma print_all_run (lines : list string) :
  forall w,
  for_each lines print w =
  (Ok tt, {| fs := fs w; stdout := stdout w ++ lines; bpy := bpy w;
             cpus := cpus w |}).
Proof.
  induction lines as [|l lines IH]; intros w.
  - cbn. rewrite app_nil_r. destruct w; reflexivity.
  - cbn [for_each]. unfold bind, print at 1. rewrite IH. cbn.
    rewrite <- app_assoc. reflexivity.
Qed.




(** ** C5: failures stay inside their job *)




(** ** C9: the order of the results *)



(** ** C8: the output layout *)

Lemma append_same_length_inj (a b s1 s2 : string) :
  String.length s1 = String.length s2 ->
  a +:+ s1 = b +:+ s2 -> s1 = s2.
Proof.
  intros Hl. revert b. induction a as [|x a IH]; intros b H.
  - destruct b as [|y b]; [exact H|].
    apply (f_equal String.length) in H. change ("" +:+ s1) with s1 in H.
    rewrite length_append in H. cbn [String.length] in H. lia.
  - destruct b as [|y b].
    + apply (f_equal String.length) in H. change ("" +:+ s2) with s2 in H.
      rewrite length_append in H. cbn [String.length] in H. lia.
    + rewrite !append_cons in H. injection H as _ H. exact (IH b H).
Qed.

(** A picture is never written over a discovered file. *)
Lemma view_path_not_discovered (prefix p dir : string) (v : view) :
  glob.matches prefix p = true -> In v all_views -> view_path dir v <> p.
Proof.
  unfold glob.matches. intros H Hv E.
  apply andb_true_iff in H. destruct H as [Hpre H].
  apply andb_true_iff in H. destruct H as [_ Hend].
  apply prefix_append in Hpre. apply endswith_append in Hend.
  destruct Hend as [r Hr]. rewrite Hr in Hpre.
  rewrite (view_path_prefix dir v Hv), Hpre in E.
  rewrite <- !append_assoc in E.
  apply append_same_length_inj in E; [discriminate|reflexivity].
Qed.




(** ** C10: files with the same name *)



(** ** The constructor as a whole *)

Section Constructor.

Local Open Scope Q_scope.











End Constructor.



(** ** The whole scene after each step of the constructor *)

Lemma wp_eq {A} (m : M A) (w w' : World) (a : A) :
  wp m (fun b w1 => b = a /\ w1 = w') w -> m w = (Ok a, w').
Proof.
  intros H. apply wp_run in H. destruct H as (b & w1 & Hrun & -> & ->).
  exact Hrun.
Qed.

Lemma run_wp {A} (m : M A) (w w' : World) (a : A)
    (post : A -> World -> Prop) :
  m w = (Ok a, w') -> post a w' -> wp m post w.
Proof. intros H Hp. unfold wp. rewrite H. exact Hp. Qed.

Lemma bind_raise {A B} (m : M A) (k : A -> M B) (w w' : World) (e : exn) :
  m w = (Raise e, w') -> bind m k w = (Raise e, w').
Proof. intros H. unfold bind. rewrite H. reflexivity. Qed.

Lemma bind_run {A B} (m : M A) (k : A -> M B) (w w' : World) (a : A) :
  m w = (Ok a, w') -> bind m k w = k a w'.
Proof. intros H. unfold bind. rewrite H. reflexivity. Qed.

Lemma with_bpy_bpy (w : World) : with_bpy w (bpy w) = w.
Proof. destruct w; reflexivity. Qed.

Lemma scene_eta (s : Scene) :
  {| objects := objects s; lights := lights s; camera := camera s;
     active := active s; render := render s |} = s.
Proof. destruct s; reflexivity. Qed.

(** Steps of the engine on a world whose scene is written out. *)
Section Steps.

Context {A : Type}.
Variable w : World.
Variables (os : list Object) (ls : list Light) (c : option Camera)
          (a : option ref) (r : RenderSettings).

Lemma step_modify (f : Scene -> Scene) (post : unit -> World -> Prop) :
  post tt (with_bpy w (f (mkScene os ls c a r))) ->
  wp (modify_bpy f) post (with_bpy w (mkScene os ls c a r)).
Proof. intros H. exact H. Qed.

Lemma step_objects (f : list Object -> list Object)
    (post : unit -> World -> Prop) :
  post tt (with_bpy w (mkScene (f os) ls c a r)) ->
  wp (modify_bpy (with_objects f)) post (with_bpy w (mkScene os ls c a r)).
Proof. intros H. exact H. Qed.

Lemma step_render (f : RenderSettings -> RenderSettings)
    (post : unit -> World -> Prop) :
  post tt (with_bpy w (mkScene os ls c a (f r))) ->
  wp (modify_bpy (with_render f)) post (with_bpy w (mkScene os ls c a r)).
Proof. intros H. exact H. Qed.

Lemma step_get_object (i : nat) (o : Object) (post : Object -> World -> Prop) :
  os !! i = Some o ->
  post o (with_bpy w (mkScene os ls c a r)) ->
  wp (get_object i) post (with_bpy w (mkScene os ls c a r)).
Proof. intros Hi H. apply (wp_get_object i o); [exact Hi | exact H]. Qed.

Lemma step_set_object (i : nat) (o : Object) (f : Object -> Object)
    (post : unit -> World -> Prop) :
  os !! i = Some o ->
  post tt (with_bpy w (mkScene (<[i := f o]> os) ls c a r)) ->
  wp (set_object i f) post (with_bpy w (mkScene os ls c a r)).
Proof. intros Hi H. apply (wp_set_object i o); [exact Hi | exact H]. Qed.

Lemma step_set_active (x : ref) (post : unit -> World -> Prop) :
  post tt (with_bpy w (mkScene os ls c (Some x) r)) ->
  wp (set_active x) post (with_bpy w (mkScene os ls c a r)).
Proof. intros H. exact H. Qed.

Lemma step_set_light (i : nat) (l : Light) (f : Light -> Light)
    (post : unit -> World -> Prop) :
  ls !! i = Some l ->
  post tt (with_bpy w (mkScene os (<[i := f l]> ls) c a r)) ->
  wp (set_light (Some (LightRef i)) f) post (with_bpy w (mkScene os ls c a r)).
Proof. intros Hi H. apply (wp_set_light i l); [exact Hi | exact H]. Qed.

Lemma step_active_object (post : option ref -> World -> Prop) :
  post a (with_bpy w (mkScene os ls c a r)) ->
  wp active_object post (with_bpy w (mkScene os ls c a r)).
Proof. intros H. exact H. Qed.

End Steps.

Lemma step_set_camera (w : World) (os : list Object) (ls : list Light)
    (c : Camera) (a : option ref) (r : RenderSettings)
    (f : Camera -> Camera) (post : unit -> World -> Prop) :
  post tt (with_bpy w (mkScene os ls (Some (f c)) a r)) ->
  wp (set_camera f) post (with_bpy w (mkScene os ls (Some c) a r)).
Proof. intros H. exact H. Qed.

Lemma select_transform_apply (l r s : bool) (o : Object) :
  select (transform_apply_obj l r s o) = select o.
Proof. reflexivity. Qed.

Lemma on_selected_comp (f g : Object -> Object) (o : Object) :
  (forall x, select (f x) = select x) ->
  on_selected g (on_selected f o) = on_selected (fun x => g (f x)) o.
Proof.
  intros Hf. unfold on_selected. destruct (select o) eqn:Hs.
  - rewrite Hf, Hs. reflexivity.
  - rewrite Hs. reflexivity.
Qed.

Lemma map_baked (l : list Object) :
  map (on_selected (transform_apply_obj false false true))
    (map (on_selected origin_set_obj)
       (map (on_selected (transform_apply_obj true true true)) l)) =
  map (on_selected baked) l.
Proof.
  rewrite !map_map. apply map_ext. intros o.
  rewrite !on_selected_comp;
    try (intros x; rewrite ?select_origin_set; reflexivity).
  reflexivity.
Qed.

Lemma reset_model_transform_steps (w : World) (os : list Object)
    (ls : list Light) (c : option Camera) (a : option ref)
    (r : RenderSettings) (i : nat) (o : Object) :
  os !! i = Some o ->
  _reset_model_transform i (with_bpy w (mkScene os ls c a r)) =
  (Ok tt, with_bpy w
     (mkScene (<[i := normalized o]> (map (on_selected baked) os)) ls c
        (Some (MeshRef i)) r)).
Proof.
  intros Hi. pose proof (lookup_lt_Some _ _ _ Hi) as Hlt.
  apply wp_eq. unfold _reset_model_transform.
  apply wp_bind, step_set_active.
  apply wp_bind, (step_set_object _ _ _ _ _ _ i o); [exact Hi|].
  unfold object_transform_apply, object_origin_set.
  apply wp_bind, step_objects.
  apply wp_bind, step_objects.
  set (o1 := origin_set_obj (transform_apply_obj true true true (set_select true o))).
  assert (Hs1 : select o1 = true) by (unfold o1; rewrite select_origin_set; reflexivity).
  apply wp_bind, (step_set_object _ _ _ _ _ _ i o1).
  { rewrite !list_lookup_fmap, list_lookup_insert_eq by exact Hlt.
    cbn. reflexivity. }
  apply wp_bind, (step_set_object _ _ _ _ _ _ i (set_location (0, 0, 0)%Q o1)).
  { apply list_lookup_insert_eq. rewrite !length_map, length_insert. exact Hlt. }
  apply wp_bind, (step_get_object _ _ _ _ _ _ i (centred o)).
  { apply list_lookup_insert_eq.
    rewrite length_insert, !length_map, length_insert. exact Hlt. }
  apply wp_bind.
  set (md := max3 (dimensions (centred o))).
  assert (Hc : select (centred o) = true) by (unfold centred; cbn; exact Hs1).
  assert (Hlist : forall x y z u : Object,
    select u = true ->
    map (on_selected (transform_apply_obj false false true))
      (<[i := u]> (<[i := z]> (<[i := y]>
         (map (on_selected origin_set_obj)
            (map (on_selected (transform_apply_obj true true true))
               (<[i := x]> os)))))) =
    <[i := transform_apply_obj false false true u]>
      (map (on_selected baked) os)).
  { intros x y z u Hu. rewrite !list_insert_insert_eq.
    rewrite <- map_baked.
    change (map ?f ?l) with (f <$> l).
    rewrite !list_fmap_insert, !list_insert_insert_eq.
    rewrite on_selected_true by exact Hu. reflexivity. }
  unfold normalized. fold md.
  destruct (Qeq_bool md 0) eqn:Hmd; cbn [negb].
  - apply wp_ret. apply step_objects. split; [reflexivity|].
    f_equal. f_equal.
    etransitivity;
      [|apply (Hlist (set_select true o) (set_location (0, 0, 0)%Q o1)
                 (centred o) (centred o) Hc)].
    rewrite !list_insert_insert_eq. reflexivity.
  - apply wp_bind. unfold truediv. rewrite Hmd. apply wp_ret.
    apply (step_set_object _ _ _ _ _ _ i (centred o)).
    { apply list_lookup_insert_eq.
      rewrite length_insert, !length_map, length_insert. exact Hlt. }
    apply step_objects. split; [reflexivity|].
    f_equal. f_equal. apply Hlist. exact Hc.
Qed.

(** [_reset_model_transform] on the whole scene: the object it is given
    is normalised; every other selected object has its transform baked
    and its origin moved to the centre of its box; unselected objects,
    lights, camera and render settings stay; the object is the active
    one afterwards. *)
Lemma reset_model_transform_scene (i : nat) (o : Object) (w : World) :
  objects (bpy w) !! i = Some o ->
  _reset_model_transform i w =
  (Ok tt, with_bpy w
     {| objects := <[i := normalized o]> (map (on_selected baked) (objects (bpy w)));
        lights := lights (bpy w); camera := camera (bpy w);
        active := Some (MeshRef i); render := render (bpy w) |}).
Proof.
  intros Hi.
  pose proof (reset_model_transform_steps w _ (lights (bpy w)) (camera (bpy w))
                (active (bpy w)) (render (bpy w)) i o Hi) as H.
  rewrite scene_eta, with_bpy_bpy in H. exact H.
Qed.

Lemma add_sun_light_steps (w : World) (os : list Object) (ls : list Light)
    (c : option Camera) (a : option ref) (r : RenderSettings)
    (rot : euler) (e : Q) :
  _add_sun_light rot e (with_bpy w (mkScene os ls c a r)) =
  (Ok tt, with_bpy w
     (mkScene (map (set_select false) os)
        (map (set_light_select false) ls ++
         [{| light_rotation := rot; energy := e; use_shadow := true;
             shadow_soft_size := 2.0; light_select := true |}])
        (option_map (set_cam_select false) c)
        (Some (LightRef (length ls))) r)).
Proof.
  apply wp_eq. unfold _add_sun_light, object_light_add.
  apply wp_bind, step_modify.
  cbv beta zeta. unfold select_everything.
  cbn [objects lights camera active render].
  apply wp_bind, step_active_object.
  set (L := map (set_light_select false) ls).
  assert (H0 : (L ++ [default_sun]) !! length L = Some default_sun)
    by apply list_lookup_middle, eq_refl.
  assert (Hlt : (length L < length (L ++ [default_sun]))%nat)
    by (rewrite length_app; cbn; lia).
  apply wp_bind. eapply step_set_light; [exact H0|].
  apply wp_bind. eapply step_set_light;
    [apply list_lookup_insert_eq; exact Hlt|].
  apply wp_bind. eapply step_set_light;
    [apply list_lookup_insert_eq; rewrite length_insert; exact Hlt|].
  eapply step_set_light;
    [apply list_lookup_insert_eq; rewrite !length_insert; exact Hlt|].
  split; [reflexivity|]. f_equal. f_equal.
  - rewrite !list_insert_insert_eq.
    replace (length L) with (length L + 0)%nat by lia.
    rewrite insert_app_r. reflexivity.
  - unfold L. rewrite length_map. reflexivity.
Qed.

Lemma auto_adjust_camera_steps (w : World) (os : list Object)
    (ls : list Light) (c : Camera) (a : option ref) (r : RenderSettings)
    (i : nat) (o : Object) :
  os !! i = Some o ->
  _auto_adjust_camera i (with_bpy w (mkScene os ls (Some c) a r)) =
  (Ok tt, with_bpy w
     (mkScene (<[i := recentred o]> os) ls
        (Some {| cam_type := cam_type c; cam_location := cam_location c;
                 cam_rotation := cam_rotation c;
                 ortho_scale := (corner_extent o * 1.2)%Q;
                 cam_select := cam_select c |})
        a r)).
Proof.
  intros Hi. apply wp_eq. unfold _auto_adjust_camera.
  apply wp_bind, (step_get_object _ _ _ _ _ _ i o); [exact Hi|].
  unfold recentred, corner_extent, corner_box.
  destruct (zip_star (map (matrix_world o) (bound_box o))) as [[xs ys] zs].
  apply wp_bind, step_set_camera.
  apply (step_set_object _ _ _ _ _ _ i o); [exact Hi|].
  split; reflexivity.
Qed.

(** [select_all] and then [delete] empty the scene. *)
Lemma clear_scene_run (w : World) :
  (object_select_all ;;; object_delete) w = (Ok tt, with_bpy w (cleared (bpy w))).
Proof.
  destruct w as [f so [os ls c a r] n].
  unfold object_select_all, object_delete, modify_bpy, bind, get_bpy, put_bpy,
    with_bpy, cleared, select_everything.
  cbn [fs stdout bpy cpus objects lights camera active render].
  rewrite filter_selected_nil, filter_selected_lights_nil.
  destruct c; reflexivity.
Qed.

Lemma selected_from_all (l : list Object) (i : nat) :
  selected_from i (map (set_select true) l) = seq i (length l).
Proof.
  revert i. induction l as [|o l IH]; intros i; [reflexivity|].
  cbn [map selected_from select set_select length seq]. rewrite IH. reflexivity.
Qed.

(** The constructor on a path that is not a readable file: the scene
    has been emptied when the importer fails. *)
Lemma setup_scene_unreadable (self : ThreeViewRenderer) (w : World) :
  (fs w !! obj_path self = None \/ fs w !! obj_path self = Some Dir) ->
  _setup_scene self w =
  (Raise (RuntimeError ("cannot read " +:+ obj_path self)),
   with_bpy w (cleared (bpy w))).
Proof.
  intros Hf. unfold _setup_scene.
  pose proof (clear_scene_run w) as Hc. unfold bind at 1 in Hc.
  unfold bind at 1. destruct (object_select_all w) as [[[]|e] w1]; [|discriminate].
  unfold bind at 1. rewrite Hc.
  apply bind_raise. unfold import_scene_obj, bind, get_fs. cbn [fs with_bpy].
  destruct Hf as [-> | ->]; reflexivity.
Qed.

(** The constructor on a file in which the importer finds no mesh. *)
Lemma setup_scene_no_mesh (self : ThreeViewRenderer) (w : World) (c : content) :
  fs w !! obj_path self = Some (File c) -> parse c = [] ->
  _setup_scene self w =
  (Raise (IndexError "list index out of range"), with_bpy w (cleared (bpy w))).
Proof.
  intros Hf Hp. unfold _setup_scene.
  pose proof (clear_scene_run w) as Hc. unfold bind at 1 in Hc.
  unfold bind at 1. destruct (object_select_all w) as [[[]|e] w1]; [|discriminate].
  unfold bind at 1. rewrite Hc.
  unfold bind at 1, import_scene_obj at 1, bind at 1, get_fs.
  cbn [fs with_bpy]. rewrite Hf, Hp.
  unfold modify_bpy, bind, get_bpy, put_bpy, cleared, select_everything,
    with_objects, with_bpy.
  cbn. destruct w as [f so [os ls c0 a r] n]. reflexivity.
Qed.

(** The constructor on a file with meshes: the scene it leaves. *)
Lemma setup_scene_scene (self : ThreeViewRenderer) (w : World)
    (c : content) (o : Object) (rest : list Object) :
  fs w !! obj_path self = Some (File c) ->
  parse c = o :: rest ->
  _setup_scene self w =
  (Ok tt, with_bpy w
     (constructed (resolution self) (filepath (render (bpy w))) o rest)).
Proof.
  intros Hf Hp. unfold _setup_scene.
  pose proof (clear_scene_run w) as Hc. unfold bind at 1 in Hc.
  unfold bind at 1. destruct (object_select_all w) as [[[]|e] w1]; [|discriminate].
  unfold bind at 1. rewrite Hc.
  apply wp_eq. unfold cleared.
  apply wp_bind.
  unfold wp at 1, import_scene_obj, bind at 1, get_fs. cbn [fs with_bpy].
  rewrite Hf. apply step_modify.
  unfold select_everything, with_objects.
  cbn [objects lights camera active render map option_map app].
  apply wp_bind.
  unfold wp at 1, selected_objects, bind at 1, get_bpy, ret.
  cbn [bpy with_bpy objects]. rewrite Hp.
  cbn [map selected_from select set_select].
  apply wp_bind. cbn [item0]. apply wp_ret.
  apply wp_bind.
  eapply run_wp; [apply (reset_model_transform_steps _ _ _ _ _ _ 0 (set_select true o)); reflexivity|].
  apply wp_bind, step_render.
  apply wp_bind.
  eapply run_wp; [apply add_sun_light_steps|].
  unfold new_scene_camera.
  apply wp_bind, step_modify. cbn [objects lights camera active render].
  apply wp_bind, step_set_camera.
  eapply run_wp; [apply (auto_adjust_camera_steps _ _ _ _ _ _ 0); reflexivity|].
  split; [reflexivity|]. unfold constructed. f_equal. f_equal.
  cbn [map]. unfold insert. cbn [list_insert map]. f_equal.
  rewrite !map_map. apply map_ext. intros x. reflexivity.
Qed.

(** ** What the constructor leaves of an earlier scene *)

(** X2.  The outcome of [_setup_scene] and the objects, lights, camera
    and active object it leaves do not depend on the scene the engine
    held before: [select_all] and [delete] remove whatever an earlier
    job of the same worker left behind. *)
Theorem constructor_ignores_previous_scene
    (self : ThreeViewRenderer) (w : World) (s : Scene) :
  (_setup_scene self (with_bpy w s)).1 = (_setup_scene self w).1 /\
  objects (bpy (_setup_scene self (with_bpy w s)).2) =
    objects (bpy (_setup_scene self w).2) /\
  lights (bpy (_setup_scene self (with_bpy w s)).2) =
    lights (bpy (_setup_scene self w).2) /\
  camera (bpy (_setup_scene self (with_bpy w s)).2) =
    camera (bpy (_setup_scene self w).2) /\
  active (bpy (_setup_scene self (with_bpy w s)).2) =
    active (bpy (_setup_scene self w).2).
Proof.
  destruct (fs w !! obj_path self) as [[|c]|] eqn:Hf.
  - rewrite (setup_scene_unreadable self w) by (right; exact Hf).
    rewrite (setup_scene_unreadable self (with_bpy w s)) by (right; exact Hf).
    repeat split.
  - destruct (parse c) as [|o rest] eqn:Hp.
    + rewrite (setup_scene_no_mesh self w c Hf Hp).
      rewrite (setup_scene_no_mesh self (with_bpy w s) c Hf Hp).
      repeat split.
    + rewrite (setup_scene_scene self w c o rest Hf Hp).
      rewrite (setup_scene_scene self (with_bpy w s) c o rest Hf Hp).
      repeat split.
  - rewrite (setup_scene_unreadable self w) by (left; exact Hf).
    rewrite (setup_scene_unreadable self (with_bpy w s)) by (left; exact Hf).
    repeat split.
Qed.

(** ** Lights and output format *)



(** ** Files with several meshes *)

Section Baked.

Local Open Scope Q_scope.



End Baked.



(** ** Moving the object by the centre of its box *)

Section Recentring.

Local Open Scope Q_scope.

(** The measured box follows the location of the object. *)
Lemma corner_box_location (o : Object) (l : vec3) :
  veq (corner_box (set_location l o)).1
      (vadd (vsub l (location o)) (corner_box o).1) /\
  veq (corner_box (set_location l o)).2
      (vadd (vsub l (location o)) (corner_box o).2).
Proof.
  unfold corner_box, zip_star.
  change (bound_box (set_location l o)) with (bound_box o).
  rewrite !map_map. cbn [fst snd].
  pose proof (bound_box_not_nil o) as Hne.
  destruct l as [[lx ly] lz]. destruct (location o) as [[tx ty] tz] eqn:Hl.
  assert (Hx : forall p, (matrix_world (set_location (lx, ly, lz) o) p).1.1
                         == 1 * (matrix_world o p).1.1 + (lx - tx)).
  { intros p. unfold matrix_world. cbn [location rotation scale set_location].
    rewrite Hl. destruct (mat_vec _ _) as [[a b] c]. cbn. ring. }
  assert (Hy : forall p, (matrix_world (set_location (lx, ly, lz) o) p).1.2
                         == 1 * (matrix_world o p).1.2 + (ly - ty)).
  { intros p. unfold matrix_world. cbn [location rotation scale set_location].
    rewrite Hl. destruct (mat_vec _ _) as [[a b] c]. cbn. ring. }
  assert (Hz : forall p, (matrix_world (set_location (lx, ly, lz) o) p).2
                         == 1 * (matrix_world o p).2 + (lz - tz)).
  { intros p. unfold matrix_world. cbn [location rotation scale set_location].
    rewrite Hl. destruct (mat_vec _ _) as [[a b] c]. cbn. ring. }
  assert (H01 : 0 <= 1) by lra.
  pose proof (py_min_affine _ _ 1 (lx - tx) _ Hne H01 Hx) as Hnx.
  pose proof (py_min_affine _ _ 1 (ly - ty) _ Hne H01 Hy) as Hny.
  pose proof (py_min_affine _ _ 1 (lz - tz) _ Hne H01 Hz) as Hnz.
  pose proof (py_max_affine _ _ 1 (lx - tx) _ Hne H01 Hx) as Hmx.
  pose proof (py_max_affine _ _ 1 (ly - ty) _ Hne H01 Hy) as Hmy.
  pose proof (py_max_affine _ _ 1 (lz - tz) _ Hne H01 Hz) as Hmz.
  unfold veq, vadd, vsub. cbn [fst snd].
  repeat split; first [rewrite Hnx | rewrite Hny | rewrite Hnz
                      | rewrite Hmx | rewrite Hmy | rewrite Hmz]; ring.
Qed.

(** After the move the centre of the box is the old location negated. *)
Lemma recentred_center (o : Object) :
  veq (corner_center (recentred o)) (vneg (location o)).
Proof.
  unfold corner_center, recentred.
  destruct (corner_box o) as [lo hi] eqn:Hb.
  destruct (corner_box_location o (vneg (vdiv (vadd hi lo) 2))) as [H1 H2].
  rewrite Hb in H1, H2. cbn [fst snd] in H1, H2.
  destruct (corner_box (set_location _ o)) as [lo' hi'].
  cbn [fst snd] in H1, H2.
  destruct lo as [[a b] c], hi as [[a' b'] c'],
           lo' as [[x y] z], hi' as [[x' y'] z'].
  destruct (location o) as [[tx ty] tz].
  unfold veq, vadd, vsub, vneg, vdiv in *.
  destruct H1 as (? & ? & ?), H2 as (? & ? & ?).
  unfold Qdiv in *. change (/ 2) with (1 # 2) in *.
  repeat split; lra.
Qed.

(** The extent that is measured does not depend on where the object
    stands. *)
Lemma corner_extent_location (o : Object) (l : vec3) :
  corner_extent (set_location l o) == corner_extent o.
Proof.
  unfold corner_extent.
  destruct (corner_box_location o l) as [H1 H2].
  destruct (corner_box o) as [lo hi].
  destruct (corner_box (set_location l o)) as [lo' hi'].
  cbn [fst snd] in H1, H2.
  destruct lo as [[a b] c], hi as [[a' b'] c'],
           lo' as [[x y] z], hi' as [[x' y'] z'].
  destruct (location o) as [[tx ty] tz], l as [[lx ly] lz].
  unfold veq, vadd, vsub in *.
  destruct H1 as (? & ? & ?), H2 as (? & ? & ?).
  apply max3_compat; lra.
Qed.

End Recentring.

(** X5.  [_auto_adjust_camera] moves the object by the centre of its
    measured box, location included: afterwards the centre of the box is
    the previous location negated, so it is the origin exactly when the
    object stood at the origin, as it does after
    [_reset_model_transform].  The ortho scale that is set is the same
    wherever the object stands. *)
Theorem auto_adjust_camera_centres_about_old_location
    (w w' : World) (obj : nat) (o : Object) (c c' : Camera) (l : vec3) :
  objects (bpy w) !! obj = Some o ->
  camera (bpy w) = Some c ->
  objects (bpy w') !! obj = Some (set_location l o) ->
  camera (bpy w') = Some c' ->
  exists w1 w1' o1 c1 c1',
    _auto_adjust_camera obj w = (Ok tt, w1) /\
    objects (bpy w1) !! obj = Some o1 /\
    camera (bpy w1) = Some c1 /\
    veq (corner_center o1) (vneg (location o)) /\
    (veq (corner_center o1) vzero <-> veq (location o) vzero) /\
    _auto_adjust_camera obj w' = (Ok tt, w1') /\
    camera (bpy w1') = Some c1' /\
    (ortho_scale c1' == ortho_scale c1)%Q.
Proof.
  intros Hi Hc Hi' Hc'.
  pose proof (auto_adjust_camera_wp obj o c w Hi Hc) as H1.
  apply wp_run in H1. destruct H1 as ([] & w1 & Hrun1 & Ho1 & Hc1 & _).
  pose proof (auto_adjust_camera_wp obj _ c' w' Hi' Hc') as H2.
  apply wp_run in H2. destruct H2 as ([] & w1' & Hrun2 & _ & Hc2 & _).
  pose proof (recentred_center o) as Hcen.
  do 5 eexists.
  split; [exact Hrun1|]. split; [exact Ho1|]. split; [exact Hc1|].
  split; [exact Hcen|]. split.
  { destruct (corner_center (recentred o)) as [[x y] z].
    destruct (location o) as [[tx ty] tz].
    unfold veq, vneg, vzero in *. destruct Hcen as (? & ? & ?).
    split; intros (? & ? & ?); repeat split; lra. }
  split; [exact Hrun2|]. split; [exact Hc2|].
  cbn [ortho_scale]. rewrite corner_extent_location. reflexivity.
Qed.

Lemma auto_adjust_camera_centres_about_old_location_witness :
  exists w1 w1' o1 c1 c1',
    _auto_adjust_camera 0 (Example.world_of Example.mesh) = (Ok tt, w1) /\
    objects (bpy w1) !! 0%nat = Some o1 /\
    camera (bpy w1) = Some c1 /\
    veq (corner_center o1) (vneg (location Example.mesh)) /\
    (veq (corner_center o1) vzero <-> veq (location Example.mesh) vzero) /\
    _auto_adjust_camera 0
      (Example.world_of (set_location (7, 0, -2)%Q Example.mesh)) = (Ok tt, w1') /\
    camera (bpy w1') = Some c1' /\
    (ortho_scale c1' == ortho_scale c1)%Q.
Proof.
  apply (auto_adjust_camera_centres_about_old_location
           (Example.world_of Example.mesh)
           (Example.world_of (set_location (7, 0, -2)%Q Example.mesh))
           0 Example.mesh default_camera default_camera (7, 0, -2)%Q).
  - reflexivity.
  - reflexivity.
  - reflexivity.
  - reflexivity.
Defined.

(** ** The shape of the normalised mesh *)

Section Shape.

Local Open Scope Q_scope.


End Shape.



(** ** Jobs that fail *)

Lemma makedirs_run (name : string) (w : World) :
  (fs w !! name = None \/ fs w !! name = Some Dir) ->
  os.makedirs name true w = (Ok tt, with_fs w (<[name := Dir]> (fs w))).
Proof.
  intros H. unfold os.makedirs, bind, get_fs, put_fs, with_fs.
  destruct H as [-> | Hd]; [reflexivity|].
  rewrite Hd, insert_id by exact Hd. destruct w; reflexivity.
Qed.

Lemma makedirs_file (name : string) (ok : bool) (w : World) (c : content) :
  fs w !! name = Some (File c) ->
  os.makedirs name ok w = (Raise (OSError ("File exists: " +:+ name)), w).
Proof.
  intros H. unfold os.makedirs, bind, get_fs. rewrite H. reflexivity.
Qed.

Lemma job_body_no_mesh (p out : string) (res : Z) (w : World) (c : content) :
  let md := model_output_dir out p in
  (fs w !! md = None \/ fs w !! md = Some Dir) ->
  fs w !! p = Some (File c) -> parse c = [] ->
  job_body (p, out, res) w =
  (Raise (IndexError "list index out of range"),
   with_bpy (with_fs w (<[md := Dir]> (fs w))) (cleared (bpy w))).
Proof.
  intros md Hmd Hp Hparse.
  assert (Hne : md <> p) by (intros E; rewrite E, Hp in Hmd; destruct Hmd; discriminate).
  unfold job_body. fold (model_output_dir out p). fold md.
  rewrite (bind_run _ _ _ _ _ (makedirs_run md w Hmd)).
  apply bind_raise. unfold __init__. apply bind_raise.
  set (w1 := with_fs w (<[md := Dir]> (fs w))).
  change (cleared (bpy w)) with (cleared (bpy w1)).
  apply (setup_scene_no_mesh _ _ c); [|exact Hparse].
  cbn [obj_path fs with_fs w1]. rewrite lookup_insert_ne by exact Hne. exact Hp.
Qed.

Lemma job_body_unreadable (p out : string) (res : Z) (w : World) :
  let md := model_output_dir out p in
  (fs w !! md = None \/ fs w !! md = Some Dir) ->
  (fs w !! p = None \/ fs w !! p = Some Dir) ->
  job_body (p, out, res) w =
  (Raise (RuntimeError ("cannot read " +:+ p)),
   with_bpy (with_fs w (<[md := Dir]> (fs w))) (cleared (bpy w))).
Proof.
  intros md Hmd Hp.
  unfold job_body. fold (model_output_dir out p). fold md.
  rewrite (bind_run _ _ _ _ _ (makedirs_run md w Hmd)).
  apply bind_raise. unfold __init__. apply bind_raise.
  set (w1 := with_fs w (<[md := Dir]> (fs w))).
  change (cleared (bpy w)) with (cleared (bpy w1)).
  apply (setup_scene_unreadable
           {| obj_path := p; output_dir := md; resolution := res;
              background_color := (1, 1, 1)%Q |}).
  cbn [obj_path fs with_fs w1].
  destruct (decide (md = p)) as [E | Hne].
  - right. rewrite <- E. apply lookup_insert_eq.
  - rewrite lookup_insert_ne by exact Hne. exact Hp.
Qed.





(** X9.  When the path of the output directory is taken by a file,
    [os.makedirs] fails and the job returns a failure line at once: the
    engine is not touched, nothing is imported, printed or written. *)
Theorem occupied_output_directory_gives_failure
    (p out : string) (res : Z) (w : World) (c : content) :
  fs w !! model_output_dir out p = Some (File c) ->
  exists msg,
    process_single_model (p, out, res) w =
    (Ok ("渲染失败 " +:+ p +:+ ": " +:+ msg), w).
Proof.
  intros Hmd. eexists. rewrite process_single_model_run.
  unfold job_body. fold (model_output_dir out p).
  rewrite (bind_raise _ _ _ _ _ (makedirs_file _ true w c Hmd)). reflexivity.
Qed.

Lemma occupied_output_directory_gives_failure_witness :
  exists msg,
    process_single_model ("in/c.obj", "out", 512%Z) Example.world =
    (Ok ("渲染失败 " +:+ "in/c.obj" +:+ ": " +:+ msg), Example.world).
Proof.
  apply (occupied_output_directory_gives_failure "in/c.obj" "out" 512
           Example.world Other).
  vm_compute. reflexivity.
Defined.

(** ** Where a computation writes *)

Lemma writes_within_ret {A : Type} (ps : list string) (a : A) : writes_within ps (ret a).
Proof. intros w q _. reflexivity. Qed.

Lemma writes_within_raise {A : Type} (ps : list string) (e : exn) :
  writes_within ps (@raise A e).
Proof. intros w q _. reflexivity. Qed.

Lemma writes_within_bind {A B : Type} (ps : list string) (m : M A) (k : A -> M B) :
  writes_within ps m -> (forall a, writes_within ps (k a)) ->
  writes_within ps (bind m k).
Proof.
  intros Hm Hk w q Hq. unfold bind. specialize (Hm w q Hq).
  destruct (m w) as [[a|e] w1]; cbn [snd] in *.
  - rewrite (Hk a w1 q Hq). exact Hm.
  - exact Hm.
Qed.

Lemma writes_within_bind_val {A B : Type} (ps : list string) (m : M A)
    (k : A -> M B) (P : A -> Prop) :
  (forall w a w', m w = (Ok a, w') -> P a) ->
  writes_within ps m -> (forall a, P a -> writes_within ps (k a)) ->
  writes_within ps (bind m k).
Proof.
  intros HP Hm Hk w q Hq. unfold bind. specialize (Hm w q Hq).
  specialize (HP w). destruct (m w) as [[a|e] w1]; cbn [snd] in *.
  - rewrite (Hk a (HP a w1 eq_refl) w1 q Hq). exact Hm.
  - exact Hm.
Qed.

Lemma writes_within_incl {A : Type} (ps ps' : list string) (m : M A) :
  (forall q, In q ps -> In q ps') -> writes_within ps m -> writes_within ps' m.
Proof. intros Hi Hm w q Hq. apply Hm. intros H. apply Hq, Hi, H. Qed.

Lemma writes_within_if {A : Type} (ps : list string) (c : bool) (m1 m2 : M A) :
  writes_within ps m1 -> writes_within ps m2 ->
  writes_within ps (if c then m1 else m2).
Proof. destruct c; auto. Qed.

Lemma writes_within_for_each {A : Type} (ps : list string) (l : list A) (body : A -> M unit) :
  (forall x, In x l -> writes_within ps (body x)) ->
  writes_within ps (for_each l body).
Proof.
  induction l as [|x l IH]; intros H; cbn [for_each].
  - apply writes_within_ret.
  - apply writes_within_bind; [apply H; left; reflexivity|].
    intros _. apply IH. intros y Hy. apply H. right. exact Hy.
Qed.


Lemma keeps_node_bind {A B : Type} (q : string) (m : M A) (k : A -> M B) :
  keeps_node q m -> (forall a, keeps_node q (k a)) -> keeps_node q (bind m k).
Proof.
  intros Hm Hk w n Hq. unfold bind. specialize (Hm w n Hq).
  destruct (m w) as [[a|e] w1]; cbn [snd] in *.
  - apply (Hk a w1 n Hm).
  - exact Hm.
Qed.

Lemma keeps_node_try {A : Type} (q : string) (m : M A) (h : exn -> M A) :
  keeps_node q m -> (forall e, keeps_node q (h e)) ->
  keeps_node q (try_except_Exception m h).
Proof.
  intros Hm Hh w n Hq. unfold try_except_Exception. specialize (Hm w n Hq).
  destruct (m w) as [[a|e] w1]; cbn [snd] in *; [exact Hm|].
  destruct (is_Exception e); cbn [snd]; [|exact Hm].
  apply (Hh e w1 n Hm).
Qed.

Lemma writes_within_keeps_node {A : Type} (ps : list string) (q : string) (m : M A) :
  writes_within ps m -> ~ In q ps -> keeps_node q m.
Proof. intros Hm Hq w n H. rewrite (Hm w q Hq). exact H. Qed.


Create HintDb frame.
#[local] Hint Resolve writes_within_ret writes_within_raise writes_within_bind
  writes_within_if : frame.

Lemma writes_within_get_bpy ps : writes_within ps get_bpy.
Proof. intros w q _. reflexivity. Qed.

Lemma writes_within_get_fs ps : writes_within ps get_fs.
Proof. intros w q _. reflexivity. Qed.

Lemma writes_within_put_bpy ps (s : Scene) : writes_within ps (put_bpy s).
Proof. intros w q _. reflexivity. Qed.

Lemma writes_within_print ps (l : string) : writes_within ps (print l).
Proof. intros w q _. reflexivity. Qed.

#[local] Hint Resolve writes_within_get_bpy writes_within_get_fs
  writes_within_put_bpy writes_within_print : frame.

Lemma writes_within_modify_bpy ps f : writes_within ps (modify_bpy f).
Proof. unfold modify_bpy. auto with frame. Qed.

Lemma writes_within_get_object ps i : writes_within ps (get_object i).
Proof.
  unfold get_object. apply writes_within_bind; [auto with frame|].
  intros s. destruct (objects s !! i); auto with frame.
Qed.

#[local] Hint Resolve writes_within_modify_bpy writes_within_get_object : frame.

Lemma writes_within_set_object ps i f : writes_within ps (set_object i f).
Proof. unfold set_object. auto with frame. Qed.

Lemma writes_within_set_camera ps f : writes_within ps (set_camera f).
Proof.
  unfold set_camera. apply writes_within_bind; [auto with frame|].
  intros s. destruct (camera s); auto with frame.
Qed.

Lemma writes_within_set_light ps r f : writes_within ps (set_light r f).
Proof.
  unfold set_light. apply writes_within_bind; [auto with frame|].
  intros s. destruct r as [[i|i|]|]; auto with frame.
  destruct (lights s !! i); auto with frame.
Qed.

Lemma writes_within_truediv ps a b : writes_within ps (truediv a b).
Proof. unfold truediv. auto with frame. Qed.

Lemma writes_within_item0 {A : Type} ps (l : list A) : writes_within ps (item0 l).
Proof. destruct l; cbn; auto with frame. Qed.

Lemma writes_within_import ps path : writes_within ps (import_scene_obj path).
Proof.
  unfold import_scene_obj. apply writes_within_bind; [auto with frame|].
  intros f. destruct (f !! path) as [[|c]|]; auto with frame.
Qed.

#[local] Hint Resolve writes_within_set_object writes_within_set_camera
  writes_within_set_light writes_within_truediv writes_within_item0
  writes_within_import : frame.

Lemma writes_within_reset ps obj : writes_within ps (_reset_model_transform obj).
Proof.
  unfold _reset_model_transform, set_active, object_transform_apply,
    object_origin_set.
  auto 20 with frame.
Qed.

Lemma writes_within_sun ps rot e : writes_within ps (_add_sun_light rot e).
Proof.
  unfold _add_sun_light, object_light_add, active_object. auto 20 with frame.
Qed.

Lemma writes_within_adjust ps obj : writes_within ps (_auto_adjust_camera obj).
Proof.
  unfold _auto_adjust_camera. apply writes_within_bind; [auto with frame|].
  intros o. destruct (zip_star _) as [[xs ys] zs]. auto with frame.
Qed.

#[local] Hint Resolve writes_within_reset writes_within_sun
  writes_within_adjust : frame.

(** The constructor writes no file. *)
Lemma writes_within_setup ps self : writes_within ps (_setup_scene self).
Proof.
  unfold _setup_scene, object_select_all, object_delete, selected_objects,
    new_scene_camera.
  auto 30 with frame.
Qed.

(** [render_view] writes the picture of its view or nothing. *)
Lemma writes_within_render_view (self : ThreeViewRenderer) (v : view) :
  writes_within [view_path (output_dir self) v]
    (render_view self v.1 v.2.1 v.2.2).
Proof.
  intros w q Hq.
  assert (Hne : view_path (output_dir self) v <> q)
    by (intros E; apply Hq; left; exact E).
  unfold render_view, _set_camera_position, set_camera, render_render,
    modify_bpy, bind, get_bpy, put_bpy, get_fs, put_fs, print, raise, ret.
  destruct (camera (bpy w)) as [c|]; [|reflexivity].
  cbn [bpy camera fst snd fs render with_render filepath].
  fold (view_path (output_dir self) v).
  destruct (fs w !! view_path (output_dir self) v) as [[|c0]|];
    cbn [snd fs]; [reflexivity | |]; apply lookup_insert_ne; exact Hne.
Qed.

Lemma writes_within_render_views (self : ThreeViewRenderer) (vs : list view) :
  writes_within (map (view_path (output_dir self)) vs)
    (for_each vs (fun '(view_name, (position, rotation)) =>
                    render_view self view_name position rotation)).
Proof.
  apply writes_within_for_each. intros [n [pos rot]] Hv.
  eapply writes_within_incl; [|apply (writes_within_render_view self (n, (pos, rot)))].
  intros q [<- | []]. apply (in_map (view_path (output_dir self))). exact Hv.
Qed.

Lemma writes_within_render_all (self : ThreeViewRenderer) :
  writes_within (map (view_path (output_dir self)) all_views)
    (render_all_views self).
Proof.
  unfold render_all_views, all_views. rewrite map_app.
  apply writes_within_bind; [auto with frame|]. intros _.
  apply writes_within_bind.
  { eapply writes_within_incl; [|apply writes_within_render_views].
    intros q Hq. apply in_or_app. left. exact Hq. }
  intros _. apply writes_within_bind; [auto with frame|]. intros _.
  eapply writes_within_incl; [|apply writes_within_render_views].
  intros q Hq. apply in_or_app. right. exact Hq.
Qed.


(** [os.makedirs] never replaces a node that is there. *)
Lemma keeps_node_makedirs (q name : string) (ok : bool) :
  keeps_node q (os.makedirs name ok).
Proof.
  intros w n Hq. unfold os.makedirs, bind, get_fs, put_fs.
  destruct (fs w !! name) as [[|c]|] eqn:Hn; [destruct ok| |];
    cbn [snd fs raise ret]; try exact Hq.
  rewrite lookup_insert_ne; [exact Hq|]. intros E. rewrite E, Hq in Hn.
  discriminate.
Qed.

Lemma init_value (p dir : string) (res : Z) (bg : Q * Q * Q)
    (w w' : World) (r : ThreeViewRenderer) :
  __init__ p dir res bg w = (Ok r, w') ->
  r = {| obj_path := p; output_dir := dir; resolution := res;
         background_color := bg |}.
Proof.
  unfold __init__, bind, ret.
  destruct (_setup_scene _ w) as [[[]|e] w1]; intros H; inversion H.
  reflexivity.
Qed.



(** A job replaces a node that exists only at a picture path. *)
Lemma keeps_node_job (args : string * string * Z) (q : string) :
  (forall dir v, In v all_views -> view_path dir v <> q) ->
  keeps_node q (process_single_model args).
Proof.
  intros Hq. destruct args as [[p out] res].
  unfold process_single_model. apply keeps_node_try.
  2:{ intros e w n H. exact H. }
  unfold job_body. fold (model_output_dir out p).
  set (md := model_output_dir out p).
  apply keeps_node_bind; [apply keeps_node_makedirs|]. intros _.
  apply (writes_within_keeps_node (map (view_path md) all_views)).
  - apply (writes_within_bind_val _ _ _
             (fun r => r = {| obj_path := p; output_dir := md; resolution := res;
                              background_color := (1, 1, 1)%Q |}));
      [intros w0 a w' H; exact (init_value _ _ _ _ _ _ _ H)| |].
    { unfold __init__. apply writes_within_bind; [apply writes_within_setup|].
      intros _. apply writes_within_ret. }
    intros r ->. apply writes_within_bind; [|intros _; apply writes_within_ret].
    exact (writes_within_render_all
             {| obj_path := p; output_dir := md; resolution := res;
                background_color := (1, 1, 1)%Q |}).
  - intros Hin. apply in_map_iff in Hin. destruct Hin as (v & E & Hv).
    apply (Hq md v Hv E).
Qed.



(** ** What the batch leaves alone *)

Lemma keeps_node_ret {A : Type} (q : string) (a : A) : keeps_node q (ret a).
Proof. intros w n H. exact H. Qed.

Lemma keeps_node_raise {A : Type} (q : string) (e : exn) :
  keeps_node q (@raise A e).
Proof. intros w n H. exact H. Qed.

Lemma keeps_node_print (q : string) (l : string) : keeps_node q (print l).
Proof. intros w n H. exact H. Qed.

Lemma keeps_node_print_all (q : string) (lines : list string) :
  keeps_node q (for_each lines print).
Proof. intros w n H. rewrite print_all_run. exact H. Qed.

Lemma keeps_node_run_jobs {A B : Type} (q : string) (f : A -> M B)
    (xs : list A) (sched : list nat) :
  (forall x, keeps_node q (f x)) ->
  forall acc w n, fs w !! q = Some n ->
    fs (run_jobs f xs sched acc w).2 !! q = Some n.
Proof.
  intros Hf. induction sched as [|i sched IH]; intros acc w n H; cbn [run_jobs].
  - exact H.
  - destruct (xs !! i) as [x|]; [|apply IH; exact H].
    specialize (Hf x w n H). destruct (f x w) as [r w1]. cbn [snd] in Hf.
    apply IH. exact Hf.
Qed.

Lemma keeps_node_pool_map {A B : Type} (q : string) (f : A -> M B)
    (xs : list A) (sched : list nat) :
  (forall x, keeps_node q (f x)) -> keeps_node q (pool_map sched f xs).
Proof.
  intros Hf w n H. unfold pool_map.
  pose proof (keeps_node_run_jobs q f xs sched Hf
                (replicate (length xs) None) w n H) as Hr.
  destruct (run_jobs f xs sched _ w) as [acc w1]. exact Hr.
Qed.

Lemma keeps_node_batch_render (q : string) (sched : list nat)
    (input_dir out : string) (res : Z) (nproc : option Z) :
  (forall dir v, In v all_views -> view_path dir v <> q) ->
  keeps_node q (batch_render sched input_dir out res nproc).
Proof.
  intros Hq. unfold batch_render.
  apply keeps_node_bind.
  { intros w n H. rewrite glob_recursive_run. exact H. }
  intros [|p files]; [apply keeps_node_print|].
  apply keeps_node_bind.
  { destruct nproc; [apply keeps_node_ret|]. intros w n H. exact H. }
  intros k. apply keeps_node_bind; [apply keeps_node_print|]. intros _.
  apply keeps_node_bind.
  { unfold Pool. destruct (k <? 1)%Z;
      [apply keeps_node_raise | apply keeps_node_ret]. }
  intros _. apply keeps_node_bind.
  { apply keeps_node_pool_map. intros x. apply keeps_node_job. exact Hq. }
  intros results. apply keeps_node_print_all.
Qed.

(** X11.  No run of the program changes an input: a path that the
    pattern of [batch_render] can find (below any directory) and that
    exists holds after [batch_render], and after [main], the node it
    held before, for every schedule of the pool, every pool size and
    whatever jobs fail. *)
Theorem inputs_are_never_changed (sched : list nat) (args : Args) (w : World)
    (prefix q : string) (n : node) :
  fs w !! q = Some n ->
  glob.matches prefix q = true ->
  fs (batch_render sched (arg_input_dir args) (arg_output_dir args)
        (arg_resolution args) (arg_processes args) w).2 !! q = Some n /\
  fs (main sched args w).2 !! q = Some n.
Proof.
  intros Hn Hm.
  assert (Hq : forall dir v, In v all_views -> view_path dir v <> q).
  { intros dir v Hv. apply (view_path_not_discovered prefix q dir v Hm Hv). }
  split.
  - apply keeps_node_batch_render; assumption.
  - unfold main. apply keeps_node_bind; [apply keeps_node_makedirs| |exact Hn].
    intros _. apply keeps_node_batch_render. exact Hq.
Qed.

Lemma inputs_are_never_changed_witness :
  fs (batch_render [3; 2; 1; 0]%nat "in" "out" 512 (Some 2%Z) Example.world).2
    !! "in/a.obj" = Some (File (ObjFile [Example.mesh])) /\
  fs (main [3; 2; 1; 0]%nat
        {| arg_input_dir := "in"; arg_output_dir := "out";
           arg_resolution := 512; arg_processes := Some 2%Z |}
        Example.world).2
    !! "in/a.obj" = Some (File (ObjFile [Example.mesh])).
Proof.
  apply (inputs_are_never_changed [3; 2; 1; 0]%nat
           {| arg_input_dir := "in"; arg_output_dir := "out";
              arg_resolution := 512; arg_processes := Some 2%Z |}
           Example.world "in/" "in/a.obj").
  - vm_compute. reflexivity.
  - vm_compute. reflexivity.
Defined.

(** ** Batches that do not start *)





(** X14.  When the output path is taken by a file, [main] ends with the
    error of [os.makedirs] before it searches for inputs: nothing is
    printed, rendered or written. *)
Theorem main_with_output_path_taken (sched : list nat) (args : Args)
    (w : World) (c : content) :
  fs w !! arg_output_dir args = Some (File c) ->
  exists msg, main sched args w = (Raise (OSError msg), w).
Proof.
  intros H. eexists. unfold main.
  apply bind_raise. apply (makedirs_file _ true w c H).
Qed.

Lemma main_with_output_path_taken_witness :
  exists msg,
    main [0; 1; 2; 3]%nat
      {| arg_input_dir := "in"; arg_output_dir := "out/c";
         arg_resolution := 512; arg_processes := None |}
      Example.world = (Raise (OSError msg), Example.world).
Proof.
  apply (main_with_output_path_taken [0; 1; 2; 3]%nat
           {| arg_input_dir := "in"; arg_output_dir := "out/c";
              arg_resolution := 512; arg_processes := None |}
           Example.world Other).
  vm_compute. reflexivity.
Defined.

(** ** A job that succeeds, in full *)

Lemma world_ext (w w' : World) :
  fs w = fs w' -> stdout w = stdout w' -> bpy w = bpy w' -> cpus w = cpus w' ->
  w = w'.
Proof. destruct w, w'; cbn; intros; subst; reflexivity. Qed.

Lemma init_run (p dir : string) (res : Z) (bg : Q * Q * Q) (w w' : World) :
  _setup_scene {| obj_path := p; output_dir := dir; resolution := res;
                  background_color := bg |} w = (Ok tt, w') ->
  __init__ p dir res bg w =
  (Ok {| obj_path := p; output_dir := dir; resolution := res;
         background_color := bg |}, w').
Proof. intros H. unfold __init__, bind. cbv zeta. rewrite H. reflexivity. Qed.

(** The world that a job leaves when it finds its mesh and is free to
    write. *)
Lemma job_body_scene (p out : string) (res : Z) (w : World)
    (c : content) (o : Object) (rest : list Object) :
  let md := model_output_dir out p in
  let S := constructed res (filepath (render (bpy w))) o rest in
  (fs w !! md = None \/ fs w !! md = Some Dir) ->
  fs w !! p = Some (File c) ->
  parse c = o :: rest ->
  (forall v, In v all_views -> fs w !! view_path md v <> Some Dir) ->
  job_body (p, out, res) w =
  (Ok (success_line p),
   {| fs := write_views md S all_views (<[md := Dir]> (fs w));
      stdout := stdout w ++
                [nl +:+ "正在渲染正交视图..."] ++
                map (view_line md) orthographic_views ++
                [nl +:+ "正在渲染等轴测视图..."] ++
                map (view_line md) iso_views;
      bpy := fold_left (shot md) all_views S;
      cpus := cpus w |}).
Proof.
  intros md S Hmd Hp Hparse Hviews.
  assert (Hne : md <> p) by (intros E; rewrite E, Hp in Hmd; destruct Hmd; discriminate).
  unfold job_body. fold (model_output_dir out p). fold md.
  rewrite (bind_run _ _ _ _ _ (makedirs_run md w Hmd)).
  set (w1 := with_fs w (<[md := Dir]> (fs w))).
  set (self := {| obj_path := p; output_dir := md; resolution := res;
                  background_color := (1, 1, 1)%Q |}).
  assert (H1 : fs w1 !! obj_path self = Some (File c)).
  { cbn [obj_path self fs w1 with_fs]. rewrite lookup_insert_ne by exact Hne.
    exact Hp. }
  rewrite (bind_run _ _ _ _ _
             (init_run p md res (1, 1, 1)%Q w1 _
                (setup_scene_scene self w1 c o rest H1 Hparse))).
  fold self. cbn [resolution self].
  change (filepath (render (bpy w1))) with (filepath (render (bpy w))).
  fold S. set (w2 := with_bpy w1 S).
  assert (H2 : wp (render_all_views self)
                 (fun _ w' =>
                    bpy w' = fold_left (shot (output_dir self)) all_views (bpy w2) /\
                    fs w' = write_views (output_dir self) (bpy w2) all_views (fs w2) /\
                    stdout w' =
                      stdout w2 ++
                      [nl +:+ "正在渲染正交视图..."] ++
                      map (view_line (output_dir self)) orthographic_views ++
                      [nl +:+ "正在渲染等轴测视图..."] ++
                      map (view_line (output_dir self)) iso_views /\
                    cpus w' = cpus w2) w2).
  { apply render_all_views_wp.
    - cbn. discriminate.
    - cbn [output_dir self]. intros v Hv. cbn [fs w2 w1 with_bpy with_fs].
      rewrite lookup_insert_ne
        by (apply not_eq_sym, view_path_longer; exact Hv).
      apply Hviews. exact Hv. }
  apply wp_run in H2. destruct H2 as ([] & w3 & Hrun & Hb & Hf & Hs & Hn).
  unfold bind at 1. rewrite Hrun. cbn [ret]. f_equal.
  apply world_ext; cbn [fs stdout bpy cpus]; assumption.
Qed.


Lemma write_views_ext (dir : string) (s s' : Scene) (vs : list view) :
  (forall v, shot dir s v = shot dir s' v) ->
  forall f, write_views dir s vs f = write_views dir s' vs f.
Proof.
  intros H. unfold write_views. induction vs as [|v vs IH]; intros f; cbn [fold_left].
  - reflexivity.
  - rewrite H. apply IH.
Qed.

(** The picture of a view does not show the file path that the render
    settings held before. *)
Lemma shot_constructed (dir : string) (res : Z) (path1 path2 : string)
    (o : Object) (rest : list Object) (v : view) :
  shot dir (constructed res path1 o rest) v =
  shot dir (constructed res path2 o rest) v.
Proof. reflexivity. Qed.









(** ** A picture path that cannot be written *)

Lemma for_each_app {A : Type} (l1 l2 : list A) (body : A -> M unit) (w : World) :
  for_each (l1 ++ l2) body w =
  bind (for_each l1 body) (fun _ => for_each l2 body) w.
Proof.
  revert w. induction l1 as [|x l1 IH]; intros w; cbn [app for_each].
  - reflexivity.
  - unfold bind in *. destruct (body x w) as [[[]|e] w1]; [apply IH | reflexivity].
Qed.

(** [render_view] at a path that is a directory: the camera has been
    moved and the file path set when the engine fails. *)
Lemma render_view_blocked (self : ThreeViewRenderer) (v : view) (w : World) :
  camera (bpy w) <> None ->
  fs w !! view_path (output_dir self) v = Some Dir ->
  render_view self v.1 v.2.1 v.2.2 w =
  (Raise (RuntimeError ("cannot write " +:+ view_path (output_dir self) v)),
   with_bpy w (shot (output_dir self) (bpy w) v)).
Proof.
  intros Hc Hd. destruct (camera (bpy w)) as [c|] eqn:Hcam; [|congruence].
  unfold render_view, _set_camera_position, set_camera, render_render,
    modify_bpy, bind, get_bpy, put_bpy, get_fs, put_fs, print, raise, ret.
  rewrite Hcam. cbn [bpy camera fst snd fs render with_render filepath].
  fold (view_path (output_dir self) v). rewrite Hd.
  unfold shot. rewrite Hcam. reflexivity.
Qed.

Lemma write_views_app (dir : string) (s : Scene) (vs vs' : list view)
    (f : gmap string node) :
  write_views dir s (vs ++ vs') f =
  write_views dir s vs' (write_views dir s vs f).
Proof. unfold write_views. apply fold_left_app. Qed.

(** A loop over views whose first unwritable path is that of [v]: the
    views before it are rendered, then the loop ends with the error. *)
Lemma render_views_blocked (self : ThreeViewRenderer)
    (pre : list view) (v : view) (post : list view) (w : World) :
  camera (bpy w) <> None ->
  (forall u, In u pre -> fs w !! view_path (output_dir self) u <> Some Dir) ->
  fs w !! view_path (output_dir self) v = Some Dir ->
  exists w',
    for_each (pre ++ v :: post)
      (fun '(view_name, (position, rotation)) =>
         render_view self view_name position rotation) w =
    (Raise (RuntimeError ("cannot write " +:+ view_path (output_dir self) v)), w') /\
    fs w' = write_views (output_dir self) (bpy w) pre (fs w) /\
    bpy w' = shot (output_dir self)
               (fold_left (shot (output_dir self)) pre (bpy w)) v /\
    cpus w' = cpus w.
Proof.
  intros Hc Hpre Hv.
  pose proof (render_views_wp self pre w Hc Hpre) as H.
  apply wp_run in H. destruct H as ([] & w1 & Hrun & Hb & Hf & Hs & Hn).
  assert (Hc1 : camera (bpy w1) <> None)
    by (rewrite Hb; apply camera_fold_shot; exact Hc).
  assert (Hv1 : fs w1 !! view_path (output_dir self) v = Some Dir).
  { rewrite Hf, write_views_other; [exact Hv|].
    intros u Hu E. apply (Hpre u Hu). rewrite E. exact Hv. }
  exists (with_bpy w1 (shot (output_dir self) (bpy w1) v)).
  split; [|cbn [fs bpy cpus with_bpy]; rewrite Hf, Hb, Hn; auto].
  rewrite for_each_app. rewrite (bind_run _ _ _ _ _ Hrun).
  cbn [for_each]. apply bind_raise.
  destruct v as [n [pos rot]].
  apply (render_view_blocked self (n, (pos, rot)) w1 Hc1 Hv1).
Qed.

Lemma render_all_views_blocked (self : ThreeViewRenderer)
    (pre : list view) (v : view) (post : list view) (w : World) :
  all_views = pre ++ v :: post ->
  camera (bpy w) <> None ->
  (forall u, In u pre -> fs w !! view_path (output_dir self) u <> Some Dir) ->
  fs w !! view_path (output_dir self) v = Some Dir ->
  exists w',
    render_all_views self w =
    (Raise (RuntimeError ("cannot write " +:+ view_path (output_dir self) v)), w') /\
    fs w' = write_views (output_dir self) (bpy w) pre (fs w) /\
    bpy w' = shot (output_dir self)
               (fold_left (shot (output_dir self)) pre (bpy w)) v /\
    cpus w' = cpus w.
Proof.
  intros Hall Hc Hpre Hv. unfold render_all_views.
  unfold all_views in Hall. apply app_eq_app in Hall.
  destruct Hall as (l & [[Ho Hi] | [Hp Hi]]).
  - (* the blocked view is in the first loop, or it opens the second *)
    destruct l as [|v' l].
    + rewrite app_nil_r in Ho. cbn [app] in Hi. subst pre.
      set (w0 := {| fs := fs w; stdout := stdout w ++ [nl +:+ "正在渲染正交视图..."];
                    bpy := bpy w; cpus := cpus w |}).
      pose proof (render_views_wp self orthographic_views w0 Hc Hpre) as H.
      apply wp_run in H. destruct H as ([] & w1 & Hrun & Hb & Hf & Hs & Hn).
      set (w2 := {| fs := fs w1; stdout := stdout w1 ++ [nl +:+ "正在渲染等轴测视图..."];
                    bpy := bpy w1; cpus := cpus w1 |}).
      assert (Hc2 : camera (bpy w2) <> None)
        by (cbn [bpy w2]; rewrite Hb; apply camera_fold_shot; exact Hc).
      assert (Hv2 : fs w2 !! view_path (output_dir self) v = Some Dir).
      { cbn [fs w2]. rewrite Hf, write_views_other; [exact Hv|].
        intros u Hu E. apply (Hpre u Hu). rewrite E. exact Hv. }
      destruct (render_views_blocked self [] v post w2 Hc2
                  ltac:(intros u []) Hv2) as (w3 & Hrun3 & Hf3 & Hb3 & Hn3).
      exists w3. cbn [app] in Hrun3.
      split.
      { unfold bind at 1, print at 1. fold w0.
        rewrite (bind_run _ _ _ _ _ Hrun).
        unfold bind at 1, print at 1. fold w2.
        rewrite <- Hi. exact Hrun3. }
      rewrite Hf3, Hb3, Hn3. cbn [write_views fold_left fs bpy cpus w2].
      rewrite Hf, Hb, Hn. auto.
    + cbn [app] in Hi. injection Hi as <- Hpost.
      set (w0 := {| fs := fs w; stdout := stdout w ++ [nl +:+ "正在渲染正交视图..."];
                    bpy := bpy w; cpus := cpus w |}).
      destruct (render_views_blocked self pre v l w0 Hc Hpre Hv)
        as (w1 & Hrun & Hf & Hb & Hn).
      exists w1. split; [|auto].
      unfold bind at 1, print at 1. fold w0. apply bind_raise.
      rewrite Ho. exact Hrun.
  - (* the blocked view is in the second loop *)
    subst pre.
    set (w0 := {| fs := fs w; stdout := stdout w ++ [nl +:+ "正在渲染正交视图..."];
                  bpy := bpy w; cpus := cpus w |}).
    assert (Hpre1 : forall u, In u orthographic_views ->
                      fs w0 !! view_path (output_dir self) u <> Some Dir).
    { intros u Hu. apply Hpre, in_or_app. left. exact Hu. }
    pose proof (render_views_wp self orthographic_views w0 Hc Hpre1) as H.
    apply wp_run in H. destruct H as ([] & w1 & Hrun & Hb & Hf & Hs & Hn).
    set (w2 := {| fs := fs w1; stdout := stdout w1 ++ [nl +:+ "正在渲染等轴测视图..."];
                  bpy := bpy w1; cpus := cpus w1 |}).
    assert (Hc2 : camera (bpy w2) <> None)
      by (cbn [bpy w2]; rewrite Hb; apply camera_fold_shot; exact Hc).
    assert (Hpre2 : forall u, In u l ->
                      fs w2 !! view_path (output_dir self) u <> Some Dir).
    { intros u Hu. cbn [fs w2]. rewrite Hf. apply write_views_not_dir.
      apply Hpre, in_or_app. right. exact Hu. }
    assert (Hv2 : fs w2 !! view_path (output_dir self) v = Some Dir).
    { cbn [fs w2]. rewrite Hf, write_views_other; [exact Hv|].
      intros u Hu E. apply (Hpre u); [apply in_or_app; left; exact Hu|].
      rewrite E. exact Hv. }
    destruct (render_views_blocked self l v post w2 Hc2 Hpre2 Hv2)
      as (w3 & Hrun3 & Hf3 & Hb3 & Hn3).
    exists w3. split.
    { unfold bind at 1, print at 1. fold w0.
      rewrite (bind_run _ _ _ _ _ Hrun).
      unfold bind at 1, print at 1. fold w2.
      rewrite Hi. exact Hrun3. }
    rewrite Hf3, Hb3, Hn3. cbn [fs bpy cpus w2]. rewrite Hf, Hb, Hn.
    cbn [fs bpy cpus w0].
    rewrite write_views_app, fold_left_app, write_views_fold_shot. auto.
Qed.



(** The world after a job that finds its mesh and is stopped by a
    directory at the picture path of the view [v]. *)
Lemma job_body_blocked (p out : string) (res : Z) (w : World)
    (c : content) (o : Object) (rest : list Object)
    (pre : list view) (v : view) (post : list view) :
  let md := model_output_dir out p in
  let S := constructed res (filepath (render (bpy w))) o rest in
  (fs w !! md = None \/ fs w !! md = Some Dir) ->
  fs w !! p = Some (File c) ->
  parse c = o :: rest ->
  all_views = pre ++ v :: post ->
  (forall u, In u pre -> fs w !! view_path md u <> Some Dir) ->
  fs w !! view_path md v = Some Dir ->
  exists w',
    job_body (p, out, res) w =
    (Raise (RuntimeError ("cannot write " +:+ view_path md v)), w') /\
    fs w' = write_views md S pre (<[md := Dir]> (fs w)) /\
    bpy w' = shot md (fold_left (shot md) pre S) v.
Proof.
  intros md S Hmd Hp Hparse Hall Hpre Hv.
  assert (Hne : md <> p) by (intros E; rewrite E, Hp in Hmd; destruct Hmd; discriminate).
  assert (Hin : forall u, In u (pre ++ v :: post) -> In u all_views)
    by (intros u Hu; rewrite Hall; exact Hu).
  unfold job_body. fold (model_output_dir out p). fold md.
  rewrite (bind_run _ _ _ _ _ (makedirs_run md w Hmd)).
  set (w1 := with_fs w (<[md := Dir]> (fs w))).
  set (self := {| obj_path := p; output_dir := md; resolution := res;
                  background_color := (1, 1, 1)%Q |}).
  assert (H1 : fs w1 !! obj_path self = Some (File c)).
  { cbn [obj_path self fs w1 with_fs]. rewrite lookup_insert_ne by exact Hne.
    exact Hp. }
  rewrite (bind_run _ _ _ _ _
             (init_run p md res (1, 1, 1)%Q w1 _
                (setup_scene_scene self w1 c o rest H1 Hparse))).
  fold self. cbn [resolution self].
  change (filepath (render (bpy w1))) with (filepath (render (bpy w))).
  fold S. set (w2 := with_bpy w1 S).
  destruct (render_all_views_blocked self pre v post w2 Hall) as (w3 & Hrun & Hf & Hb & _).
  - cbn. discriminate.
  - cbn [output_dir self]. intros u Hu. cbn [fs w2 w1 with_bpy with_fs].
    rewrite lookup_insert_ne.
    + apply Hpre. exact Hu.
    + apply not_eq_sym, view_path_longer, Hin, in_or_app. left. exact Hu.
  - cbn [output_dir self fs w2 w1 with_bpy with_fs].
    rewrite lookup_insert_ne; [exact Hv|].
    apply not_eq_sym, view_path_longer, Hin, in_or_app. right. left. reflexivity.
  - exists w3. split; [apply bind_raise; exact Hrun|].
    split; [exact Hf | exact Hb].
Qed.



(** ** What a job takes from the engine *)

(** Either no picture path in [vs] is a directory, or there is a first
    one that is. *)
Lemma first_blocked (dir : string) (f : gmap string node) (vs : list view) :
  (forall u, In u vs -> f !! view_path dir u <> Some Dir) \/
  exists pre v post,
    vs = pre ++ v :: post /\
    (forall u, In u pre -> f !! view_path dir u <> Some Dir) /\
    f !! view_path dir v = Some Dir.
Proof.
  induction vs as [|x vs IH].
  - left. intros u [].
  - destruct (f !! view_path dir x) as [[|c]|] eqn:Hx.
    + right. exists [], x, vs. split; [reflexivity|]. split; [intros u []|exact Hx].
    + destruct IH as [IH | (pre & v & post & -> & Hpre & Hv)].
      * left. intros u [<- | Hu]; [rewrite Hx; discriminate | apply IH, Hu].
      * right. exists (x :: pre), v, post. split; [reflexivity|].
        split; [|exact Hv].
        intros u [<- | Hu]; [rewrite Hx; discriminate | apply Hpre, Hu].
    + destruct IH as [IH | (pre & v & post & -> & Hpre & Hv)].
      * left. intros u [<- | Hu]; [rewrite Hx; discriminate | apply IH, Hu].
      * right. exists (x :: pre), v, post. split; [reflexivity|].
        split; [|exact Hv].
        intros u [<- | Hu]; [rewrite Hx; discriminate | apply Hpre, Hu].
Qed.

Lemma write_views_constructed (dir : string) (res : Z) (path1 path2 : string)
    (o : Object) (rest : list Object) (vs : list view) (f : gmap string node) :
  write_views dir (constructed res path1 o rest) vs f =
  write_views dir (constructed res path2 o rest) vs f.
Proof. apply write_views_ext. intros v. apply shot_constructed. Qed.

(** X18.  The result of a job and the files it leaves do not depend on
    the scene that the engine held when the job began, in whichever way
    the job ends: a worker gives a model the same pictures whatever it
    rendered before. *)
Theorem job_ignores_previous_scene
    (args : string * string * Z) (w : World) (s : Scene) :
  (process_single_model args (with_bpy w s)).1 =
    (process_single_model args w).1 /\
  fs (process_single_model args (with_bpy w s)).2 =
    fs (process_single_model args w).2.
Proof.
  destruct args as [[p out] res].
  rewrite !process_single_model_run. cbn [fst snd].
  set (md := model_output_dir out p).
  set (w' := with_bpy w s).
  assert (Hfs : fs w' = fs w) by reflexivity.
  destruct (fs w !! md) as [[|c0]|] eqn:Hmd.
  2:{ (* the directory path is taken by a file *)
      unfold job_body. fold (model_output_dir out p). fold md.
      rewrite (bind_raise _ _ _ _ _ (makedirs_file md true w c0 Hmd)).
      rewrite (bind_raise _ _ _ _ _ (makedirs_file md true w' c0 Hmd)).
      split; reflexivity. }
  all: assert (Hmd' : fs w !! md = None \/ fs w !! md = Some Dir) by auto;
       clear Hmd.
  all: destruct (fs w !! p) as [[|c]|] eqn:Hp.
  all: try (rewrite (job_body_unreadable p out res w Hmd' ltac:(auto)),
              (job_body_unreadable p out res w' Hmd' ltac:(auto));
            split; reflexivity).
  all: destruct (parse c) as [|o rest] eqn:Hparse.
  all: try (rewrite (job_body_no_mesh p out res w c Hmd' Hp Hparse),
              (job_body_no_mesh p out res w' c Hmd' Hp Hparse);
            split; reflexivity).
  all: destruct (first_blocked md (fs w) all_views)
         as [Hfree | (pre & v & post & Hall & Hpre & Hv)].
  all: try (rewrite (job_body_scene p out res w c o rest Hmd' Hp Hparse Hfree),
              (job_body_scene p out res w' c o rest Hmd' Hp Hparse Hfree);
            cbn [fst snd fs line_of]; split;
            [reflexivity | apply write_views_constructed]).
  all: destruct (job_body_blocked p out res w c o rest pre v post Hmd' Hp Hparse
                   Hall Hpre Hv) as (w1 & Hrun1 & Hf1 & _);
       destruct (job_body_blocked p out res w' c o rest pre v post Hmd' Hp Hparse
                   Hall Hpre Hv) as (w2 & Hrun2 & Hf2 & _);
       fold md in Hrun1, Hrun2; rewrite Hrun1, Hrun2; cbn [fst snd line_of];
       split; [reflexivity|];
       rewrite Hf1, Hf2; apply write_views_constructed.
Qed.

(** ** Files with different names *)

Section Stems.

Local Open Scope Z_scope.

Lemma rfind_cons_none (c x : ascii) (s : string) :
  rfind c (String x s) = -1 -> rfind c s = -1 /\ Ascii.eqb x c = false.
Proof.
  cbn [rfind]. pose proof (rfind_range c s) as Hr.
  destruct (0 <=? rfind c s) eqn:H0.
  - apply Z.leb_le in H0. lia.
  - apply Z.leb_gt in H0. destruct (Ascii.eqb x c); [discriminate|].
    intros _. split; [lia | reflexivity].
Qed.

(** A name without a slash is determined by what follows up to the
    first slash. *)
Lemma split_at_slash (s1 : string) :
  forall s2 a b : string,
  rfind "/" s1 = -1 -> rfind "/" s2 = -1 ->
  s1 +:+ "/" +:+ a = s2 +:+ "/" +:+ b -> s1 = s2.
Proof.
  induction s1 as [|x s1 IH]; intros s2 a b H1 H2 E.
  - destruct s2 as [|y s2]; [reflexivity|].
    apply rfind_cons_none in H2. destruct H2 as [_ Hy].
    change ("" +:+ "/" +:+ a) with (String "/" a) in E.
    rewrite append_cons in E. injection E as <- _. discriminate.
  - apply rfind_cons_none in H1. destruct H1 as [H1 Hx].
    destruct s2 as [|y s2].
    + change ("" +:+ "/" +:+ b) with (String "/" b) in E.
      rewrite append_cons in E. injection E as -> _. discriminate.
    + apply rfind_cons_none in H2. destruct H2 as [H2 Hy].
      rewrite !append_cons in E. injection E as <- E.
      f_equal. apply (IH s2 a b H1 H2 E).
Qed.

Lemma no_slash_in_front (s a b : string) :
  rfind "/" s = -1 -> s <> a +:+ "/" +:+ b.
Proof.
  intros Hs E. rewrite E in Hs. rewrite !rfind_append in Hs.
  pose proof (rfind_range "/" b) as Hb. pose proof (rfind_range "/" a) as Ha.
  destruct (0 <=? rfind "/" b) eqn:H0.
  - apply Z.leb_le in H0.
    replace (0 <=? Z.of_nat (String.length "/") + rfind "/" b) with true in Hs
      by (symmetry; apply Z.leb_le; cbn; lia).
    cbn [String.length] in Hs. lia.
  - change (rfind "/" "/") with 0 in Hs. change (0 <=? 0) with true in Hs.
    cbn iota in Hs. lia.
Qed.

End Stems.

(** The paths of two found files with different names lie apart: the
    footprints of their jobs have no path in common. *)
Lemma footprints_disjoint (prefix1 prefix2 out p1 p2 : string) :
  glob.matches (join_prefix prefix1) p1 = true ->
  glob.matches (join_prefix prefix2) p2 = true ->
  basename p1 <> basename p2 ->
  forall q, In q (footprint out p1) -> ~ In q (footprint out p2).
Proof.
  intros H1 H2 Hb.
  destruct (matches_stem _ _ H1) as (s1 & Hb1 & Hs1 & Hne1 & Hsl1 & _).
  destruct (matches_stem _ _ H2) as (s2 & Hb2 & Hs2 & Hne2 & Hsl2 & _).
  assert (Hs : s1 <> s2) by (intros E; apply Hb; rewrite Hb1, Hb2, E; reflexivity).
  unfold footprint.
  rewrite (model_output_dir_stem out p1 s1 Hs1 Hsl1).
  rewrite (model_output_dir_stem out p2 s2 Hs2 Hsl2).
  intros q [<- | Hq1] [E | Hq2].
  - apply append_inj_l in E. congruence.
  - apply in_map_iff in Hq2. destruct Hq2 as (v & E & Hv).
    rewrite (view_path_stem out s2 v Hne2 Hsl2 Hv) in E.
    rewrite ?append_assoc in E. apply append_inj_l in E.
    symmetry in E. revert E. apply no_slash_in_front. exact Hsl1.
  - apply in_map_iff in Hq1. destruct Hq1 as (v & E' & Hv). subst q.
    rewrite (view_path_stem out s1 v Hne1 Hsl1 Hv) in E.
    rewrite ?append_assoc in E. apply append_inj_l in E.
    revert E. apply no_slash_in_front. exact Hsl2.
  - apply in_map_iff in Hq1. destruct Hq1 as (v1 & E1 & Hv1).
    apply in_map_iff in Hq2. destruct Hq2 as (v2 & E2 & Hv2). subst q.
    rewrite (view_path_stem out s1 v1 Hne1 Hsl1 Hv1) in E2.
    rewrite (view_path_stem out s2 v2 Hne2 Hsl2 Hv2) in E2.
    rewrite ?append_assoc in E2. apply append_inj_l in E2.
    apply Hs. symmetry. apply (split_at_slash _ _ _ _ Hsl2 Hsl1 E2).
Qed.

(** X19.  Found files with different base names never meet in the
    output: their jobs have different output directories, no picture
    path of one is a picture path or the directory of the other. *)
Theorem different_names_different_outputs
    (prefix1 prefix2 out p1 p2 : string) :
  glob.matches (join_prefix prefix1) p1 = true ->
  glob.matches (join_prefix prefix2) p2 = true ->
  basename p1 <> basename p2 ->
  model_output_dir out p1 <> model_output_dir out p2 /\
  forall v1 v2, In v1 all_views -> In v2 all_views ->
    view_path (model_output_dir out p1) v1 <>
      view_path (model_output_dir out p2) v2 /\
    view_path (model_output_dir out p1) v1 <> model_output_dir out p2 /\
    model_output_dir out p1 <> view_path (model_output_dir out p2) v2.
Proof.
  intros H1 H2 Hb.
  pose proof (footprints_disjoint prefix1 prefix2 out p1 p2 H1 H2 Hb) as Hd.
  split.
  - intros E. apply (Hd (model_output_dir out p1)).
    + left. reflexivity.
    + left. symmetry. exact E.
  - intros v1 v2 Hv1 Hv2. split; [|split]; intros E.
    + apply (Hd (view_path (model_output_dir out p1) v1)).
      * right. apply in_map. exact Hv1.
      * right. rewrite E. apply in_map. exact Hv2.
    + apply (Hd (view_path (model_output_dir out p1) v1)).
      * right. apply in_map. exact Hv1.
      * left. symmetry. exact E.
    + apply (Hd (model_output_dir out p1)).
      * left. reflexivity.
      * right. rewrite E. apply in_map. exact Hv2.
Qed.

Lemma different_names_different_outputs_witness :
  model_output_dir "out" "in/a.obj" <> model_output_dir "out" "in/c.obj" /\
  forall v1 v2, In v1 all_views -> In v2 all_views ->
    view_path (model_output_dir "out" "in/a.obj") v1 <>
      view_path (model_output_dir "out" "in/c.obj") v2 /\
    view_path (model_output_dir "out" "in/a.obj") v1 <>
      model_output_dir "out" "in/c.obj" /\
    model_output_dir "out" "in/a.obj" <>
      view_path (model_output_dir "out" "in/c.obj") v2.
Proof.
  apply (different_names_different_outputs "in" "in" "out" "in/a.obj" "in/c.obj").
  - vm_compute. reflexivity.
  - vm_compute. reflexivity.
  - vm_compute. discriminate.
Defined.

(** ** What a job reads *)




(** ** The order in which the pool runs the jobs *)

Section Schedules.

Variables (input_dir out : string) (res : Z) (files : list string) (w0 : World).

Hypothesis Hfound :
  forall p, In p files -> glob.matches (join_prefix input_dir) p = true.
Hypothesis Hexist : forall p, In p files -> exists n, fs w0 !! p = Some n.
Hypothesis Hnames : NoDup (map basename files).








End Schedules.





(** ** The normalised mesh and the mesh it came from *)

Section Invariance.

Local Open Scope Q_scope.









End Invariance.



(** ** The mesh inside the picture *)

Section Frame.

Local Open Scope Q_scope.







End Frame.



(** ** A batch in which nothing goes wrong *)





(** ** Normalising twice *)

Section Twice.

Local Open Scope Q_scope.



End Twice.


